(** * Drone tracking service: the HTTP / WebSocket serving layer

    A shallow embedding of [backend/main.py]: the connection manager, the
    MJPEG frame generator, the camera control and status routes, the
    WebSocket endpoint and the health check.

    Python objects with identity (web sockets) are natural numbers, [str]
    and [bytes] are [string], [int] is [Z].  Handlers run in a small
    state-and-exception monad over the process-wide state (the global
    [tracker], [manager.active_connections]) and append every call that
    leaves the module (tracker methods, socket I/O, generator yields) to a
    trace.  Calls to [logger] only write to the process log and are left
    out.  Handlers are modelled one at a time, without interleaving at
    their [await] points. *)

From Stdlib Require Import ZArith QArith List String Ascii Bool Lia DecimalString.
From Stdlib Require Import Permutation.
Import ListNotations.
Local Open Scope string_scope.
Local Open Scope Z_scope.

(** ** Strings *)

Definition is_ascii_upper (c : ascii) : bool :=
  let n := nat_of_ascii c in (Nat.leb 65 n && Nat.leb n 90)%bool.

Definition ascii_lower (c : ascii) : ascii :=
  if is_ascii_upper c then ascii_of_nat (nat_of_ascii c + 32) else c.

(** [str.lower()].  An action is a URL path segment; the letters A-Z are
    folded and every other character is kept. *)
Fixpoint lower (s : string) : string :=
  match s with
  | EmptyString => EmptyString
  | String c rest => String (ascii_lower c) (lower rest)
  end.

Definition CR : ascii := "013"%char.
Definition LF : ascii := "010"%char.
Definition CRLF : string := String CR (String LF EmptyString).
Definition DQUOTE : ascii := "034"%char.
Definition BACKSLASH : ascii := "092"%char.

(** ** JSON values and [json.dumps] *)

(** The dicts built by this module are flat: every value is a string, a
    boolean or an integer. *)
Inductive JsonValue : Type :=
| JBool (b : bool)
| JInt (z : Z)
| JString (s : string).

Definition Dict : Type := list (string * JsonValue).

Definition hex_digit (n : nat) : ascii :=
  if Nat.ltb n 10 then ascii_of_nat (48 + n) else ascii_of_nat (87 + n).

(** The escape of one character under [ensure_ascii=True]. *)
Definition json_escape_char (c : ascii) : string :=
  let n := nat_of_ascii c in
  if Ascii.eqb c DQUOTE then String BACKSLASH (String DQUOTE EmptyString)
  else if Ascii.eqb c BACKSLASH then String BACKSLASH (String BACKSLASH EmptyString)
  else if Nat.eqb n 10 then String BACKSLASH "n"
  else if Nat.eqb n 13 then String BACKSLASH "r"
  else if Nat.eqb n 9 then String BACKSLASH "t"
  else if Nat.eqb n 8 then String BACKSLASH "b"
  else if Nat.eqb n 12 then String BACKSLASH "f"
  else if (Nat.ltb n 32 || Nat.leb 128 n)%bool then
    String BACKSLASH
      ("u00" ++ String (hex_digit (Nat.div n 16))
                  (String (hex_digit (Nat.modulo n 16)) EmptyString))
  else String c EmptyString.

Fixpoint json_escape (s : string) : string :=
  match s with
  | EmptyString => EmptyString
  | String c rest => json_escape_char c ++ json_escape rest
  end.

Definition json_quote (s : string) : string :=
  String DQUOTE (json_escape s ++ String DQUOTE EmptyString).

Definition str_of_int (z : Z) : string := NilZero.string_of_int (Z.to_int z).

Definition json_value (v : JsonValue) : string :=
  match v with
  | JBool true => "true"
  | JBool false => "false"
  | JInt z => str_of_int z
  | JString s => json_quote s
  end.

Fixpoint json_members (d : Dict) : string :=
  match d with
  | [] => ""
  | [(k, v)] => json_quote k ++ ": " ++ json_value v
  | (k, v) :: rest => json_quote k ++ ": " ++ json_value v ++ ", " ++ json_members rest
  end.

(** [json.dumps] of a dict, with the default separators [", "] and
    [": "]. *)
Definition json_dumps (d : Dict) : string := "{" ++ json_members d ++ "}".
Arguments json_dumps : simpl never.

(** [d.get(k)]. *)
Fixpoint dict_get (k : string) (d : Dict) : option JsonValue :=
  match d with
  | [] => None
  | (k', v) :: rest => if String.eqb k k' then Some v else dict_get k rest
  end.

Definition dict_keys (d : Dict) : list string := map fst d.

(** ** Images

    A frame is either one captured by the engine (opaque here) or a term
    built by the serving layer with [np.zeros] and [cv2.putText]. *)

Inductive Image : Type :=
| Captured (id : nat)
| Zeros (height width channels : Z)
| PutText (img : Image) (text : string) (org : Z * Z) (fontFace : Z)
          (fontScale : Z) (color : Z * Z * Z) (thickness : Z).

Definition FONT_HERSHEY_SIMPLEX : Z := 0.

(** ** Exceptions and results *)

Inductive Exn : Type :=
| HTTPException (status_code : Z) (detail : string)
| WebSocketDisconnect
| AttributeError (msg : string)
| RuntimeError (msg : string).

Inductive Result (A : Type) : Type :=
| Ok (a : A)
| Raise (e : Exn).
Arguments Ok {A} a.
Arguments Raise {A} e.

Definition is_WebSocketDisconnect (e : Exn) : bool :=
  match e with WebSocketDisconnect => true | _ => false end.

(** ** Response models ([models.CameraStatus], as constructed here) *)

Record CameraStatus : Type := mkCameraStatus {
  is_running : bool;
  message : string;
  total_detections_today : Z
}.

(** ** The tracker interface *)

(** Modelled from the spec: [tracker.DroneTracker] is not among the
    sources.  Section 4.4 gives its surface: [is_running], [latest_frame]
    and [today_detection_count] are non-blocking reads of the engine
    status; [start] and [stop] change the engine and answer with a
    boolean. *)
Class DroneTracker (T : Type) : Type := {
  is_camera_running : T -> bool;
  get_today_detection_count : T -> Z;
  get_latest_frame : T -> option Image;
  start : T -> bool * T;
  stop : T -> bool * T
}.

Inductive Method : Type :=
| m_is_camera_running
| m_get_today_detection_count
| m_get_latest_frame
| m_start
| m_stop.

Definition WebSocket : Type := nat.

Inductive Event : Type :=
| TrackerCall (m : Method)
| WsAccept (ws : WebSocket)
| WsSend (ws : WebSocket) (text : string)
| WsReceive (ws : WebSocket)
| Yield (chunk : string).

Definition is_mutating (e : Event) : bool :=
  match e with
  | TrackerCall m_start | TrackerCall m_stop => true
  | _ => false
  end.

(** ** The Track Manager *)

Module TrackManager.

(** Modelled from the spec: the tracking code lives in [tracker.py], which
    is not among the sources.  What follows is section 4.3 (with the data
    model of section 3) step by step: greedy association by overlap in
    most-recently-seen order, update of matched tracks, ageing and
    termination of unmatched ones, spawning of new tracks. *)
Record BBox : Type := mkBBox { x1 : Z; y1 : Z; x2 : Z; y2 : Z }.

Record Candidate : Type := mkCandidate { cand_box : BBox; confidence : Q }.

Record Track : Type := mkTrack {
  track_id : nat;
  start_ts : Z;
  last_seen : Z;
  last_box : BBox;
  miss_counter : nat
}.

Record Detection : Type := mkDetection { start_time : Z; end_time : Z }.

Record Config : Type := mkConfig { grace_threshold : nat; min_overlap : Q }.

(** A frame as the manager sees it: its timestamp and the candidates of
    the inference adapter; a failed read is a frame without candidates. *)
Record Frame : Type := mkFrame { timestamp : Z; candidates : list Candidate }.

Record State : Type := mkState { live : list Track; next_id : nat }.

Definition init : State := mkState [] 0.

Definition side (lo hi : Z) : Z := Z.max 0 (hi - lo).

Definition area (b : BBox) : Z := side (x1 b) (x2 b) * side (y1 b) (y2 b).

Definition intersection (a b : BBox) : Z :=
  side (Z.max (x1 a) (x1 b)) (Z.min (x2 a) (x2 b))
  * side (Z.max (y1 a) (y1 b)) (Z.min (y2 a) (y2 b)).

(** Intersection over union; two empty boxes overlap by nothing. *)
Definition iou (a b : BBox) : Q :=
  let i := intersection a b in
  let u := area a + area b - i in
  if u <=? 0 then 0%Q else Qmake i (Z.to_pos u).

Definition Qlt_bool (a b : Q) : bool := negb (Qle_bool b a).

(** The position of the candidate with the highest overlap among those
    exceeding the minimum, scanning [l] from position [i]. *)
Fixpoint best_index (cfg : Config) (box : BBox) (l : list Candidate) (i : nat)
         (best : option (nat * Q)) : option (nat * Q) :=
  match l with
  | [] => best
  | c :: rest =>
      let o := iou box (cand_box c) in
      let best' :=
        if Qlt_bool (min_overlap cfg) o then
          match best with
          | None => Some (i, o)
          | Some (_, ob) => if Qlt_bool ob o then Some (i, o) else best
          end
        else best in
      best_index cfg box rest (S i) best'
  end.

Fixpoint remove_nth {A : Type} (n : nat) (l : list A) : list A :=
  match l, n with
  | [], _ => []
  | _ :: rest, O => rest
  | x :: rest, S n' => x :: remove_nth n' rest
  end.

Definition best_match (cfg : Config) (box : BBox) (unmatched : list Candidate)
  : option (Candidate * list Candidate) :=
  match best_index cfg box unmatched 0 None with
  | None => None
  | Some (i, _) =>
      match nth_error unmatched i with
      | Some c => Some (c, remove_nth i unmatched)
      | None => None
      end
  end.

(** Most recently seen first; tracks seen at the same time keep their
    order. *)
Fixpoint insert_by_recency (t : Track) (l : list Track) : list Track :=
  match l with
  | [] => [t]
  | u :: rest =>
      if last_seen u <? last_seen t then t :: u :: rest
      else u :: insert_by_recency t rest
  end.

Fixpoint sort_by_recency (l : list Track) : list Track :=
  match l with
  | [] => []
  | t :: rest => insert_by_recency t (sort_by_recency rest)
  end.

(** Modelled from the spec: step 1 of section 4.3, each track, in order,
    takes its best unmatched candidate. *)
Fixpoint associate (cfg : Config) (tracks : list Track) (unmatched : list Candidate)
  : list (Track * option Candidate) * list Candidate :=
  match tracks with
  | [] => ([], unmatched)
  | t :: rest =>
      match best_match cfg (last_box t) unmatched with
      | Some (c, unmatched') =>
          let (ms, left) := associate cfg rest unmatched' in
          ((t, Some c) :: ms, left)
      | None =>
          let (ms, left) := associate cfg rest unmatched in
          ((t, None) :: ms, left)
      end
  end.

(** Modelled from the spec: steps 2 and 3 of section 4.3, the counters; a
    match resets, a miss increments. *)
Definition age (ts : Z) (p : Track * option Candidate) : Track :=
  match p with
  | (t, Some c) => mkTrack (track_id t) (start_ts t) ts (cand_box c) 0
  | (t, None) =>
      mkTrack (track_id t) (start_ts t) (last_seen t) (last_box t)
              (S (miss_counter t))
  end.

Definition exceeds_grace (cfg : Config) (t : Track) : bool :=
  Nat.ltb (grace_threshold cfg) (miss_counter t).

(** Modelled from the spec: step 4 of section 4.3, one new track per
    candidate left unmatched. *)
Fixpoint spawn (ts : Z) (id : nat) (l : list Candidate) : list Track :=
  match l with
  | [] => []
  | c :: rest => mkTrack id ts ts (cand_box c) 0 :: spawn ts (S id) rest
  end.

Definition detection_of (t : Track) : Detection :=
  mkDetection (start_ts t) (last_seen t).

Record Outcome : Type := mkOutcome {
  state_after : State;
  terminated : list Track
}.

Definition emitted (o : Outcome) : list Detection :=
  map detection_of (terminated o).

(** The live tracks of [st] after association and ageing on frame [f],
    before any of them is terminated. *)
Definition aged (cfg : Config) (st : State) (f : Frame) : list Track :=
  map (age (timestamp f))
      (fst (associate cfg (sort_by_recency (live st)) (candidates f))).

(** Modelled from the spec: one frame of section 4.3.  Aged tracks past
    the grace threshold are terminated, the others stay live, and the
    candidates left over start new tracks. *)
Definition step (cfg : Config) (st : State) (f : Frame) : Outcome :=
  let left := snd (associate cfg (sort_by_recency (live st)) (candidates f)) in
  let tracks := aged cfg st f in
  let survivors := filter (fun t => negb (exceeds_grace cfg t)) tracks in
  let ended := filter (exceeds_grace cfg) tracks in
  mkOutcome
    (mkState (survivors ++ spawn (timestamp f) (next_id st) left)%list
             (next_id st + List.length left)%nat)
    ended.

(** Modelled from the spec: on engine stop every live track is
    force-terminated (edge case of section 4.3). *)
Definition flush (st : State) : Outcome :=
  mkOutcome (mkState [] (next_id st)) (live st).

(** A run over a sequence of frames, with the tracks terminated at each
    frame. *)
Fixpoint run (cfg : Config) (st : State) (frames : list Frame)
  : State * list (list Track) :=
  match frames with
  | [] => (st, [])
  | f :: rest =>
      let o := step cfg st f in
      let (st', outs) := run cfg (state_after o) rest in
      (st', terminated o :: outs)
  end.

(** The states the manager can be in: the initial one and whatever a
    frame or a flush makes of a reachable one. *)
Inductive reachable (cfg : Config) : State -> Prop :=
| reachable_init : reachable cfg init
| reachable_step st f :
    reachable cfg st -> reachable cfg (state_after (step cfg st f))
| reachable_flush st :
    reachable cfg st -> reachable cfg (state_after (flush st)).

Definition ids (l : list Track) : list nat := map track_id l.

(** What holds of every reachable state: no live track is past the grace
    threshold, identifiers are distinct and below the next one to be
    handed out. *)
Definition well_formed (cfg : Config) (st : State) : Prop :=
  Forall (fun t => (miss_counter t <= grace_threshold cfg)%nat) (live st)
  /\ Forall (fun t => (track_id t < next_id st)%nat) (live st)
  /\ NoDup (ids (live st)).

(** A candidate overlaps a box when their overlap exceeds the minimum. *)
Definition overlaps (cfg : Config) (box : BBox) (c : Candidate) : bool :=
  Qlt_bool (min_overlap cfg) (iou box (cand_box c)).

(** No candidate of the frame overlaps the box: the frame has nothing to
    match a track last seen there (a frame without candidates, such as a
    capture gap, is the plainest case). *)
Definition out_of_sight (cfg : Config) (box : BBox) (f : Frame) : bool :=
  forallb (fun c => negb (overlaps cfg box c)) (candidates f).

(** The track [t] after [k] further misses. *)
Definition missed (t : Track) (k : nat) : Track :=
  mkTrack (track_id t) (start_ts t) (last_seen t) (last_box t)
          (k + miss_counter t).

(** The outcome of association on frame [f]: each live track with the
    candidate it took, if any, and the candidates nobody took. *)
Definition pairing (cfg : Config) (st : State) (f : Frame)
  : list (Track * option Candidate) :=
  fst (associate cfg (sort_by_recency (live st)) (candidates f)).

Definition leftover (cfg : Config) (st : State) (f : Frame) : list Candidate :=
  snd (associate cfg (sort_by_recency (live st)) (candidates f)).

(** The configuration and the frames used in the examples. *)
Definition sample_config : Config := mkConfig 5 (3 # 10).

Definition sample_box : BBox := mkBBox 10 10 50 50.

Definition sighting (ts : Z) : Frame :=
  mkFrame ts [mkCandidate sample_box (9 # 10)].

Definition blank (ts : Z) : Frame := mkFrame ts [].

End TrackManager.

(** Modelled from the spec: the engine of section 4.4, as far as the
    serving layer can observe it.  [start] fails on a running engine or
    when the frame source cannot be opened; [stop] flushes the live tracks
    as detection records and is a no-op on a stopped engine. *)
Record Engine : Type := mkEngine {
  engine_running : bool;
  engine_today_count : Z;
  engine_latest_frame : option Image;
  engine_source_available : bool;
  engine_tracks : TrackManager.State
}.

Definition engine_start (e : Engine) : bool * Engine :=
  if engine_running e then (false, e)
  else if engine_source_available e then
    (true, mkEngine true (engine_today_count e) (engine_latest_frame e)
                    (engine_source_available e) (engine_tracks e))
  else (false, e).

Definition engine_stop (e : Engine) : bool * Engine :=
  if engine_running e then
    let o := TrackManager.flush (engine_tracks e) in
    (true, mkEngine false
                    (engine_today_count e
                     + Z.of_nat (List.length (TrackManager.emitted o)))
                    (engine_latest_frame e) (engine_source_available e)
                    (TrackManager.state_after o))
  else (true, e).

#[export] Instance Engine_DroneTracker : DroneTracker Engine := {
  is_camera_running := engine_running;
  get_today_detection_count := engine_today_count;
  get_latest_frame := engine_latest_frame;
  start := engine_start;
  stop := engine_stop
}.

(** ** Process state and the handler monad *)

Section Server.

Context {T : Type} `{DroneTracker T}.

(** The outside world: whether a socket accepts the handshake, whether a
    send to it goes through or raises (a socket answers a given text the
    same way throughout one handler), what the wall clock reads at the k-th
    call of [datetime.now().isoformat()], and OpenCV's JPEG encoder, which
    answers with its [(ret, buffer)] pair or raises (as [cv2.imencode] does
    on an empty image). *)
Variable ws_accept : WebSocket -> Result unit.
Variable ws_send_text : WebSocket -> string -> Result unit.
Variable clock : nat -> string.
Variable imencode : string -> Image -> Result (bool * string).

Record World : Type := mkWorld {
  tracker : option T;
  active_connections : list WebSocket;
  trace : list Event;
  ticks : nat
}.

Definition M (A : Type) : Type := World -> Result A * World.

Definition ret {A : Type} (a : A) : M A := fun w => (Ok a, w).

Definition bind {A B : Type} (c : M A) (k : A -> M B) : M B :=
  fun w =>
    match c w with
    | (Ok a, w') => k a w'
    | (Raise e, w') => (Raise e, w')
    end.

Definition raise {A : Type} (e : Exn) : M A := fun w => (Raise e, w).

(** [try: c  except Exception as e: h e]; the state reached when the
    exception was raised is the one the handler starts from. *)
Definition try_except {A : Type} (c : M A) (h : Exn -> M A) : M A :=
  fun w =>
    match c w with
    | (Ok a, w') => (Ok a, w')
    | (Raise e, w') => h e w'
    end.

Notation "x <- c ;; k" := (bind c (fun x => k))
  (at level 100, c at next level, right associativity).
Notation "c ;;; k" := (bind c (fun _ => k))
  (at level 100, right associativity).

Definition emit (e : Event) : M unit :=
  fun w => (Ok tt, mkWorld (tracker w) (active_connections w) (trace w ++ [e])%list (ticks w)).

Definition get_tracker : M (option T) := fun w => (Ok (tracker w), w).

Definition set_tracker (t : option T) : M unit :=
  fun w => (Ok tt, mkWorld t (active_connections w) (trace w) (ticks w)).

Definition get_connections : M (list WebSocket) :=
  fun w => (Ok (active_connections w), w).

Definition set_connections (l : list WebSocket) : M unit :=
  fun w => (Ok tt, mkWorld (tracker w) l (trace w) (ticks w)).

Definition lift {A : Type} (r : Result A) : M A := fun w => (r, w).

(** [datetime.now().isoformat()] *)
Definition now_isoformat : M string :=
  fun w => (Ok (clock (ticks w)),
            mkWorld (tracker w) (active_connections w) (trace w) (S (ticks w))).

(** A method call on the global [tracker]; on [None] the attribute
    lookup fails. *)
Definition on_tracker {A : Type} (name : string) (m : Method) (f : T -> A * T) : M A :=
  t <- get_tracker ;;
  match t with
  | None => raise (AttributeError ("'NoneType' object has no attribute '" ++ name ++ "'"))
  | Some t =>
      emit (TrackerCall m) ;;;
      let (a, t') := f t in
      set_tracker (Some t') ;;;
      ret a
  end.

Definition tracker_is_camera_running : M bool :=
  on_tracker "is_camera_running" m_is_camera_running
             (fun t => (is_camera_running t, t)).

Definition tracker_get_today_detection_count : M Z :=
  on_tracker "get_today_detection_count" m_get_today_detection_count
             (fun t => (get_today_detection_count t, t)).

Definition tracker_get_latest_frame : M (option Image) :=
  on_tracker "get_latest_frame" m_get_latest_frame
             (fun t => (get_latest_frame t, t)).

Definition tracker_start : M bool := on_tracker "start" m_start start.

Definition tracker_stop : M bool := on_tracker "stop" m_stop stop.

(** ** [ConnectionManager] *)

Definition websocket_accept (ws : WebSocket) : M unit :=
  emit (WsAccept ws) ;;; lift (ws_accept ws).

Definition websocket_send_text (ws : WebSocket) (text : string) : M unit :=
  emit (WsSend ws text) ;;; lift (ws_send_text ws text).

(** [list.remove]: drops the first occurrence. *)
Fixpoint list_remove (x : WebSocket) (l : list WebSocket) : list WebSocket :=
  match l with
  | [] => []
  | y :: rest => if Nat.eqb x y then rest else y :: list_remove x rest
  end.

Definition list_contains (x : WebSocket) (l : list WebSocket) : bool :=
  existsb (Nat.eqb x) l.

Definition connect (ws : WebSocket) : M unit :=
  websocket_accept ws ;;;
  l <- get_connections ;;
  set_connections (l ++ [ws])%list.

Definition disconnect (ws : WebSocket) : M unit :=
  l <- get_connections ;;
  if list_contains ws l then set_connections (list_remove ws l) else ret tt.

(** The first loop of [broadcast]: one guarded send per connection,
    collecting the connections whose send raised. *)
Fixpoint broadcast_send (message : string) (conns : list WebSocket)
         (disconnected : list WebSocket) : M (list WebSocket) :=
  match conns with
  | [] => ret disconnected
  | connection :: rest =>
      d <- try_except
             (websocket_send_text connection message ;;; ret disconnected)
             (fun _ => ret (disconnected ++ [connection])%list) ;;
      broadcast_send message rest d
  end.

(** The second loop: [self.disconnect] for each collected connection. *)
Fixpoint broadcast_drop (disconnected : list WebSocket) : M unit :=
  match disconnected with
  | [] => ret tt
  | connection :: rest => disconnect connection ;;; broadcast_drop rest
  end.

Definition broadcast (message : string) : M unit :=
  l <- get_connections ;;
  match l with
  | [] => ret tt
  | _ =>
      disconnected <- broadcast_send message l [] ;;
      broadcast_drop disconnected
  end.

(** ** [generate_frames] *)

Definition multipart (frame_bytes : string) : string :=
  "--frame" ++ CRLF ++ "Content-Type: image/jpeg" ++ CRLF ++ CRLF
    ++ frame_bytes ++ CRLF.

Definition placeholder (text : string) (org : Z * Z) (color : Z * Z * Z) : Image :=
  PutText (Zeros 480 640 3) text org FONT_HERSHEY_SIMPLEX 1 color 2.

Definition no_camera_feed_frame : Image :=
  placeholder "No camera feed" (200, 240) (0, 0, 255).

Definition camera_stopped_frame : Image :=
  placeholder "Camera Stopped" (180, 240) (0, 255, 255).

Definition stream_error_frame : Image :=
  placeholder "Stream Error" (200, 240) (0, 0, 255).

(** [ret, buffer = cv2.imencode('.jpg', img)] followed by the guarded
    [yield]. *)
Definition encode_and_yield (img : Image) : M unit :=
  encoded <- lift (imencode ".jpg" img) ;;
  let (r, buffer) := encoded in
  if r then emit (Yield (multipart buffer)) else ret tt.

(** One pass through the body of the [while True] loop (the sleep that
    ends it only paces the stream). *)
Definition generate_frames_iteration : M unit :=
  running <- tracker_is_camera_running ;;
  if running then
    frame <- tracker_get_latest_frame ;;
    match frame with
    | Some frame => encode_and_yield frame
    | None => encode_and_yield no_camera_feed_frame
    end
  else
    encode_and_yield camera_stopped_frame.

Inductive GeneratorState : Type :=
| Suspended
| Exhausted.

(** The generator, run for at most [n] iterations: an exception in any
    iteration ends the loop with one last frame. *)
Fixpoint generate_frames (n : nat) : M GeneratorState :=
  match n with
  | O => ret Suspended
  | S n' =>
      continue <- try_except
                    (generate_frames_iteration ;;; ret true)
                    (fun _ => encode_and_yield stream_error_frame ;;; ret false) ;;
      if continue then generate_frames n' else ret Exhausted
  end.

(** ** Routes *)

Definition camera_control (action : string) : M CameraStatus :=
  t <- get_tracker ;;
  match t with
  | None => raise (HTTPException 503 "Tracker not initialized")
  | Some _ =>
      if String.eqb (lower action) "start" then
        running <- tracker_is_camera_running ;;
        if running then
          n <- tracker_get_today_detection_count ;;
          ret (mkCameraStatus true "Camera is already running" n)
        else
          success <- tracker_start ;;
          if success then
            n <- tracker_get_today_detection_count ;;
            ret (mkCameraStatus true "Camera started successfully" n)
          else
            raise (HTTPException 500 "Failed to start camera")
      else if String.eqb (lower action) "stop" then
        running <- tracker_is_camera_running ;;
        if negb running then
          n <- tracker_get_today_detection_count ;;
          ret (mkCameraStatus false "Camera is already stopped" n)
        else
          success <- tracker_stop ;;
          if success then
            n <- tracker_get_today_detection_count ;;
            ret (mkCameraStatus false "Camera stopped successfully" n)
          else
            raise (HTTPException 500 "Failed to stop camera")
      else
        raise (HTTPException 400 "Invalid action. Use 'start' or 'stop'")
  end.

Definition camera_status : M CameraStatus :=
  t <- get_tracker ;;
  match t with
  | None => ret (mkCameraStatus false "Tracker not initialized" 0)
  | Some _ =>
      running <- tracker_is_camera_running ;;
      n <- tracker_get_today_detection_count ;;
      ret (mkCameraStatus running "Camera status retrieved" n)
  end.

Definition is_not_None {A : Type} (o : option A) : bool :=
  match o with Some _ => true | None => false end.

Definition health_check : M Dict :=
  t <- get_tracker ;;
  running <- match t with
             | Some _ => tracker_is_camera_running
             | None => ret false
             end ;;
  ts <- now_isoformat ;;
  ret [("status", JString "healthy");
       ("tracker_initialized", JBool (is_not_None t));
       ("camera_running", JBool running);
       ("timestamp", JString ts)].

(** ** The WebSocket endpoint *)

Definition status_message (running : bool) (n : Z) (ts : string) : Dict :=
  [("event", JString "status_update");
   ("is_running", JBool running);
   ("total_detections_today", JInt n);
   ("timestamp", JString ts)].

Definition pong_message (ts : string) : Dict :=
  [("event", JString "pong"); ("timestamp", JString ts)].

Definition websocket_receive_text (ws : WebSocket) (r : Result string) : M string :=
  emit (WsReceive ws) ;;; lift r.

Inductive HandlerState : Type :=
| Awaiting
| Returned.

(** The [while True] loop, driven by what the peer delivers to successive
    [receive_text] calls; when the deliveries run out the handler is left
    waiting on the socket. *)
Fixpoint receive_loop (ws : WebSocket) (incoming : list (Result string)) : M HandlerState :=
  match incoming with
  | [] => ret Awaiting
  | r :: rest =>
      data <- websocket_receive_text ws r ;;
      (if String.eqb data "ping" then
         ts <- now_isoformat ;;
         websocket_send_text ws (json_dumps (pong_message ts))
       else ret tt) ;;;
      receive_loop ws rest
  end.

Definition websocket_endpoint (ws : WebSocket) (incoming : list (Result string))
  : M HandlerState :=
  connect ws ;;;
  try_except
    (t <- get_tracker ;;
     match t with
     | Some _ =>
         running <- tracker_is_camera_running ;;
         n <- tracker_get_today_detection_count ;;
         ts <- now_isoformat ;;
         websocket_send_text ws (json_dumps (status_message running n ts))
     | None => ret tt
     end ;;;
     receive_loop ws incoming)
    (fun e =>
       if is_WebSocketDisconnect e then disconnect ws ;;; ret Returned
       else disconnect ws ;;; ret Returned).

(** ** Application lifespan *)

(** The startup half of [lifespan].  [create_all] is the outcome of
    creating the tables, [model_exists] what [os.path.exists(MODEL_PATH)]
    answers; the tracker's constructor and its [set_callbacks] belong to
    [tracker.py] and are taken as given: the first builds a tracker or
    raises, the second registers the two broadcast hooks on it or raises.
    A fresh [ConnectionManager] replaces the old one. *)
Definition lifespan_startup (create_all : Result unit) (model_exists : bool)
           (construct : Result T) (set_callbacks : T -> Result T) : M unit :=
  lift create_all ;;;
  set_connections [] ;;;
  try_except
    (if negb model_exists then set_tracker None
     else
       t <- lift construct ;;
       set_tracker (Some t) ;;;
       t' <- lift (set_callbacks t) ;;
       set_tracker (Some t'))
    (fun _ => set_tracker None).

(** The shutdown half: [if tracker and tracker.is_camera_running():
    tracker.stop()]. *)
Definition lifespan_shutdown : M unit :=
  t <- get_tracker ;;
  match t with
  | None => ret tt
  | Some _ =>
      running <- tracker_is_camera_running ;;
      if running then (_ <- tracker_stop ;; ret tt) else ret tt
  end.

(** ** Observations on runs

    The vocabulary in which the properties below are stated. *)

(** What a handler appended to the trace. *)
Definition appended (w w' : World) (evs : list Event) : Prop :=
  trace w' = (trace w ++ evs)%list.

Definition with_trace (w : World) (evs : list Event) : World :=
  mkWorld (tracker w) (active_connections w) (trace w ++ evs)%list (ticks w).

Definition with_tracker (w : World) (t : T) : World :=
  mkWorld (Some t) (active_connections w) (trace w) (ticks w).

Definition send_succeeds (message : string) (c : WebSocket) : bool :=
  match ws_send_text c message with
  | Ok _ => true
  | Raise _ => false
  end.

Definition send_fails (message : string) (c : WebSocket) : bool :=
  negb (send_succeeds message c).

(** The connection list after [disconnect] has been called on each
    element of [d] in turn. *)
Fixpoint drop_all (d l : list WebSocket) : list WebSocket :=
  match d with
  | [] => l
  | c :: rest =>
      drop_all rest (if list_contains c l then list_remove c l else l)
  end.

Definition frame_reads (t : T) : list Event :=
  if is_camera_running t
  then [TrackerCall m_is_camera_running; TrackerCall m_get_latest_frame]
  else [TrackerCall m_is_camera_running].

(** What the receive loop puts on the trace: reads of the socket and
    replies to pings. *)
Definition loop_event (ws : WebSocket) (e : Event) : Prop :=
  e = WsReceive ws \/ exists ts, e = WsSend ws (json_dumps (pong_message ts)).

Definition extends (ws : WebSocket) (w w' : World) : Prop :=
  exists evs, appended w w' evs /\ Forall (loop_event ws) evs.

(** The image an iteration of the generator passes to the encoder. *)
Definition served_image (t : T) : Image :=
  if is_camera_running t then
    match get_latest_frame t with
    | Some frame => frame
    | None => no_camera_feed_frame
    end
  else camera_stopped_frame.

(** What the guarded [yield] puts on the trace for [img]. *)
Definition yielded (img : Image) : list Event :=
  match imencode ".jpg" img with
  | Ok (true, buffer) => [Yield (multipart buffer)]
  | _ => []
  end.


Definition is_ws_send (e : Event) : bool :=
  match e with WsSend _ _ => true | _ => false end.

Definition is_Raise {A : Type} (r : Result A) : bool :=
  match r with Raise _ => true | Ok _ => false end.

(** The connection list after one [disconnect] of [ws]. *)
Definition without (ws : WebSocket) (l : list WebSocket) : list WebSocket :=
  if list_contains ws l then list_remove ws l else l.

(** The exceptions [camera_control] raises. *)
Definition camera_control_errors : list Exn :=
  [HTTPException 503 "Tracker not initialized";
   HTTPException 500 "Failed to start camera";
   HTTPException 500 "Failed to stop camera";
   HTTPException 400 "Invalid action. Use 'start' or 'stop'"].

(** The tracker a finished startup leaves in the global. *)
Definition started_tracker (model_exists : bool) (construct : Result T)
           (set_callbacks : T -> Result T) : option T :=
  if model_exists then
    match construct with
    | Ok t => match set_callbacks t with Ok t' => Some t' | Raise _ => None end
    | Raise _ => None
    end
  else None.

(** The guarded part of [websocket_endpoint]: the initial status and the
    receive loop, as they stand inside its [try]. *)
Definition websocket_session (ws : WebSocket) (incoming : list (Result string))
  : M HandlerState :=
  t <- get_tracker ;;
  match t with
  | Some _ =>
      running <- tracker_is_camera_running ;;
      n <- tracker_get_today_detection_count ;;
      ts <- now_isoformat ;;
      websocket_send_text ws (json_dumps (status_message running n ts))
  | None => ret tt
  end ;;;
  receive_loop ws incoming.

Definition is_ws_receive (e : Event) : bool :=
  match e with WsReceive _ => true | _ => false end.

End Server.

(** ** Sample environments *)

Definition accept_all (ws : WebSocket) : Result unit := Ok tt.

Definition send_all (ws : WebSocket) (text : string) : Result unit := Ok tt.

(** Every send goes through except those to [bad], whose peer is gone. *)
Definition send_except (bad ws : WebSocket) (text : string) : Result unit :=
  if Nat.eqb ws bad then Raise WebSocketDisconnect else Ok tt.

Definition noon (k : nat) : string := "2026-01-01T12:00:00".

Definition jpeg_stub (ext : string) (img : Image) : Result (bool * string) :=
  Ok (true, "JFIF").

Definition stopped_engine : Engine :=
  mkEngine false 3 None true TrackManager.init.

Definition running_engine : Engine :=
  mkEngine true 3 None true TrackManager.init.

(** A stopped engine whose camera cannot be opened. *)
Definition unplugged_engine : Engine :=
  mkEngine false 3 None false TrackManager.init.

(** A running engine with a captured frame in its slot. *)
Definition streaming_engine : Engine :=
  mkEngine true 3 (Some (Captured 7)) true TrackManager.init.

(** A server that refuses every handshake, and an encoder that rejects
    every image. *)
Definition refuse_all (ws : WebSocket) : Result unit :=
  Raise (RuntimeError "handshake refused").

Definition jpeg_broken (ext : string) (img : Image) : Result (bool * string) :=
  Ok (false, EmptyString).


(** A tracker whose camera is jammed: its state is the running flag, and
    [start] and [stop] always fail and leave it as it is. *)
Definition jammed_tracker : DroneTracker bool :=
  Build_DroneTracker bool (fun b => b) (fun _ => 0) (fun _ => None)
                     (fun b => (false, b)) (fun b => (false, b)).

Definition world_of (e : Engine) (conns : list WebSocket) : @World Engine :=
  mkWorld (Some e) conns [] 0.

Definition world_without_tracker : @World Engine := mkWorld None [] [] 0.

(** A client connects while the engine is stopped and then stays silent. *)
Definition sample_handshake : @World Engine :=
  snd (websocket_endpoint accept_all send_all noon 1%nat []
                          (world_of stopped_engine [])).

Definition is_send (e : Event) : bool :=
  match e with WsSend _ _ => true | _ => false end.

(** * Properties of the serving layer *)

Section ServerProperties.

Context {T : Type} `{DroneTracker T}.

Variable ws_accept : WebSocket -> Result unit.
Variable ws_send_text : WebSocket -> string -> Result unit.
Variable clock : nat -> string.
Variable imencode : string -> Image -> Result (bool * string).


Ltac unfold_monad :=
  unfold tracker_is_camera_running, tracker_get_today_detection_count,
    tracker_get_latest_frame, tracker_start, tracker_stop, on_tracker,
    websocket_send_text, websocket_accept, websocket_receive_text,
    now_isoformat, get_tracker, set_tracker, get_connections,
    set_connections, emit, lift, try_except, bind, raise, ret,
    with_trace, with_tracker, appended in *.

Ltac run_handler := unfold_monad; cbn in *.

Lemma app_assoc_1 (l : list Event) (a b : Event) :
  ((l ++ [a]) ++ [b])%list = (l ++ [a; b])%list.
Proof. now rewrite <- app_assoc. Qed.

Lemma app_assoc_2 (l : list Event) (a b c : Event) :
  (((l ++ [a]) ++ [b]) ++ [c])%list = (l ++ [a; b; c])%list.
Proof. now rewrite <- !app_assoc. Qed.

(** ** Camera control *)

(** C1. [start] on a running camera: the route answers with the
    already-running status carrying the current count; the only tracker
    calls are the two reads, so [tracker.start] is not invoked and neither
    the tracker nor the connection list changes. *)
Theorem camera_control_start_already_running :
  forall (w : @World T) (t : T) (action : string),
    tracker w = Some t ->
    lower action = "start" ->
    is_camera_running t = true ->
    let evs := [TrackerCall m_is_camera_running;
                TrackerCall m_get_today_detection_count] in
    camera_control action w
    = (Ok (mkCameraStatus true "Camera is already running"
                          (get_today_detection_count t)),
       with_trace w evs)
    /\ ~ In (TrackerCall m_start) evs
    /\ tracker (snd (camera_control action w)) = Some t.
Proof.
  intros w t action Ht Ha Hr evs.
  assert (E : camera_control action w
              = (Ok (mkCameraStatus true "Camera is already running"
                                    (get_today_detection_count t)),
                 with_trace w evs)).
  { unfold camera_control. destruct w as [tr conns tc k]. run_handler.
    subst tr. rewrite Ha. cbn. rewrite Hr. cbn.
    now rewrite app_assoc_1. }
  split; [exact E|]. split.
  - cbn. intros [F|[F|[]]]; discriminate.
  - rewrite E. cbn. exact Ht.
Qed.

(** C2. [stop] on a stopped camera: the route answers with the
    already-stopped status carrying the current count, after the two reads
    only; [tracker.stop] is not invoked and nothing changes. *)
Theorem camera_control_stop_already_stopped :
  forall (w : @World T) (t : T) (action : string),
    tracker w = Some t ->
    lower action = "stop" ->
    is_camera_running t = false ->
    let evs := [TrackerCall m_is_camera_running;
                TrackerCall m_get_today_detection_count] in
    camera_control action w
    = (Ok (mkCameraStatus false "Camera is already stopped"
                          (get_today_detection_count t)),
       with_trace w evs)
    /\ ~ In (TrackerCall m_stop) evs
    /\ tracker (snd (camera_control action w)) = Some t.
Proof.
  intros w t action Ht Ha Hr evs.
  assert (E : camera_control action w
              = (Ok (mkCameraStatus false "Camera is already stopped"
                                    (get_today_detection_count t)),
                 with_trace w evs)).
  { unfold camera_control. destruct w as [tr conns tc k]. run_handler.
    subst tr. rewrite Ha. cbn. rewrite Hr. cbn.
    now rewrite app_assoc_1. }
  split; [exact E|]. split.
  - cbn. intros [F|[F|[]]]; discriminate.
  - rewrite E. cbn. exact Ht.
Qed.

(** C3. [start] on a stopped camera: [tracker.start] is called once and
    its boolean decides the answer within the same call.  On [true] the
    route returns the started status with the count read from the started
    tracker; on [false] it raises HTTP 500 and returns no status. *)
Theorem camera_control_start_decided_by_tracker :
  forall (w : @World T) (t : T) (action : string),
    tracker w = Some t ->
    lower action = "start" ->
    is_camera_running t = false ->
    let t' := snd (start t) in
    (fst (start t) = true ->
     camera_control action w
     = (Ok (mkCameraStatus true "Camera started successfully"
                           (get_today_detection_count t')),
        with_trace (with_tracker w t')
                   [TrackerCall m_is_camera_running; TrackerCall m_start;
                    TrackerCall m_get_today_detection_count]))
    /\ (fst (start t) = false ->
        camera_control action w
        = (Raise (HTTPException 500 "Failed to start camera"),
           with_trace (with_tracker w t')
                      [TrackerCall m_is_camera_running; TrackerCall m_start])).
Proof.
  intros w t action Ht Ha Hr t'. subst t'.
  unfold camera_control. destruct w as [tr conns tc k]. run_handler.
  subst tr. rewrite Ha. cbn. rewrite Hr. cbn.
  destruct (start t) as [ok t1]. cbn.
  split; intros ->; cbn.
  - now rewrite app_assoc_2.
  - now rewrite app_assoc_1.
Qed.

(** C4. An action that is neither [start] nor [stop] after lowercasing
    is refused by the route itself with HTTP 400; no tracker method is
    called and the state is the one the request found. *)
Theorem camera_control_invalid_action :
  forall (w : @World T) (t : T) (action : string),
    tracker w = Some t ->
    lower action <> "start" ->
    lower action <> "stop" ->
    camera_control action w
    = (Raise (HTTPException 400 "Invalid action. Use 'start' or 'stop'"), w).
Proof.
  intros w t action Ht Hs Hp.
  unfold camera_control. run_handler. rewrite Ht.
  apply String.eqb_neq in Hs. apply String.eqb_neq in Hp.
  now rewrite Hs, Hp.
Qed.

(** ** Camera status and health *)

(** C8. The status route only reads: whatever the state, the tracker,
    the connection list and the clock are left as they were, the calls it
    makes are reads, and with a tracker in place it reports that tracker's
    running flag and today's count. *)
Theorem camera_status_read_only :
  forall (w : @World T),
    let w' := snd (camera_status w) in
    tracker w' = tracker w
    /\ active_connections w' = active_connections w
    /\ ticks w' = ticks w
    /\ (exists evs, appended w w' evs /\ existsb is_mutating evs = false)
    /\ (forall t, tracker w = Some t ->
          fst (camera_status w)
          = Ok (mkCameraStatus (is_camera_running t) "Camera status retrieved"
                               (get_today_detection_count t))).
Proof.
  intros [tr conns tc k]. unfold camera_status. run_handler.
  destruct tr as [t|]; cbn.
  - repeat split; trivial.
    + exists [TrackerCall m_is_camera_running;
              TrackerCall m_get_today_detection_count].
      split; [now rewrite app_assoc_1|reflexivity].
    + intros t' [= <-]. reflexivity.
  - repeat split; trivial.
    + exists []. split; [now rewrite app_nil_r|reflexivity].
    + intros t' [=].
Qed.

(** C9. Without a tracker the two read-only routes still answer: the
    status route returns "not running, 0 detections" with its message, the
    health check returns "healthy" with both flags false; neither raises
    and neither touches the tracker. *)
Theorem status_routes_total_without_tracker :
  forall (w : @World T),
    tracker w = None ->
    camera_status w
    = (Ok (mkCameraStatus false "Tracker not initialized" 0), w)
    /\ fst (health_check clock w)
       = Ok [("status", JString "healthy");
             ("tracker_initialized", JBool false);
             ("camera_running", JBool false);
             ("timestamp", JString (clock (ticks w)))]
    /\ trace (snd (health_check clock w)) = trace w
    /\ tracker (snd (health_check clock w)) = None.
Proof.
  intros [tr conns tc k] Ht. cbn in Ht. subst tr.
  unfold camera_status, health_check. run_handler. repeat split.
Qed.

(** ** Broadcast *)

Lemma with_trace_nil (w : @World T) : with_trace w [] = w.
Proof. destruct w. unfold with_trace. cbn. now rewrite app_nil_r. Qed.

Lemma broadcast_send_spec (message : string) :
  forall (conns d : list WebSocket) (w : @World T),
    broadcast_send ws_send_text message conns d w
    = (Ok (d ++ filter (send_fails ws_send_text message) conns)%list,
       with_trace w (map (fun c => WsSend c message) conns)).
Proof.
  induction conns as [|c rest IH]; intros d w.
  - cbn. unfold ret. now rewrite app_nil_r, with_trace_nil.
  - cbn [broadcast_send map filter]. unfold bind at 1.
    unfold send_fails at 1, send_succeeds at 1.
    unfold try_except, websocket_send_text, bind, emit, lift, ret.
    destruct (ws_send_text c message) as [[]|e]; cbn [negb];
      rewrite IH; f_equal.
    + unfold with_trace. cbn. now rewrite <- app_assoc.
    + now rewrite <- app_assoc.
    + unfold with_trace. cbn. now rewrite <- app_assoc.
Qed.

Lemma broadcast_drop_spec :
  forall (d : list WebSocket) (w : @World T),
    broadcast_drop d w
    = (Ok tt, mkWorld (tracker w) (drop_all d (active_connections w))
                      (trace w) (ticks w)).
Proof.
  induction d as [|c rest IH]; intros w.
  - now destruct w.
  - cbn [broadcast_drop drop_all]. unfold bind at 1.
    unfold disconnect, bind, get_connections, set_connections, ret.
    destruct (list_contains c (active_connections w)); rewrite IH; cbn;
      trivial.
Qed.

Lemma drop_all_cons_other (d : list WebSocket) :
  forall (x : WebSocket) (l : list WebSocket),
    ~ In x d -> drop_all d (x :: l) = x :: drop_all d l.
Proof.
  induction d as [|c rest IH]; intros x l Hx; [reflexivity|].
  assert (Hc : c <> x) by (intros ->; apply Hx; now left).
  assert (Hr : ~ In x rest) by (intros F; apply Hx; now right).
  cbn [drop_all list_contains existsb list_remove].
  apply Nat.eqb_neq in Hc. rewrite Hc. cbn [orb].
  fold (list_contains c l).
  destruct (list_contains c l); now apply IH.
Qed.

Lemma drop_all_failed (bad : WebSocket -> bool) :
  forall l : list WebSocket,
    drop_all (filter bad l) l = filter (fun c => negb (bad c)) l.
Proof.
  induction l as [|x l IH]; [reflexivity|].
  cbn [filter]. destruct (bad x) eqn:Hb; cbn [negb].
  - cbn [drop_all list_contains existsb list_remove].
    now rewrite Nat.eqb_refl.
  - rewrite drop_all_cons_other; [now rewrite IH|].
    rewrite filter_In. intros [_ F]. congruence.
Qed.

(** C10. [broadcast] on an empty list does nothing.  Otherwise it
    attempts one send per active connection, in order; the connections
    left afterwards are exactly those whose send went through, and the
    call itself always returns normally. *)
Theorem broadcast_removes_failed_connections :
  forall (message : string) (w : @World T),
    let w' := snd (broadcast ws_send_text message w) in
    fst (broadcast ws_send_text message w) = Ok tt
    /\ appended w w' (map (fun c => WsSend c message) (active_connections w))
    /\ active_connections w'
       = filter (send_succeeds ws_send_text message) (active_connections w)
    /\ (forall c, In c (active_connections w') <->
                  In c (active_connections w)
                  /\ ws_send_text c message = Ok tt)
    /\ tracker w' = tracker w
    /\ (active_connections w = [] -> broadcast ws_send_text message w = (Ok tt, w)).
Proof.
  intros message w.
  assert (E : broadcast ws_send_text message w
              = (Ok tt,
                 mkWorld (tracker w)
                         (filter (send_succeeds ws_send_text message) (active_connections w))
                         (trace w ++ map (fun c => WsSend c message)
                                         (active_connections w))%list
                         (ticks w))).
  { unfold broadcast, bind, get_connections at 1.
    destruct (active_connections w) as [|c rest] eqn:El.
    - destruct w; cbn in *. subst. unfold ret. now rewrite app_nil_r.
    - rewrite broadcast_send_spec, broadcast_drop_spec. cbn [app].
      unfold with_trace. cbn [tracker active_connections trace ticks].
      rewrite El, drop_all_failed. f_equal. f_equal.
      apply filter_ext. intros a. unfold send_fails.
      now rewrite negb_involutive. }
  cbv zeta. rewrite E. unfold appended.
  cbn [fst snd tracker active_connections trace].
  split; [reflexivity|]. split; [reflexivity|]. split; [reflexivity|].
  split; [|split].
  - intros c. rewrite filter_In. unfold send_succeeds.
    destruct (ws_send_text c message) as [[]|e]; split; intros [Hin Hs];
      (split; [assumption|]); try reflexivity; discriminate.
  - reflexivity.
  - intros El. destruct w; cbn in *. subst. cbn. now rewrite app_nil_r.
Qed.

(** ** Frame generator *)

(** C7. An iteration that finds no frame (camera stopped, or running
    with an empty frame slot) yields exactly one chunk, and that chunk is
    the multipart part [--frame CRLF Content-Type: image/jpeg CRLF CRLF
    jpeg CRLF] around the JPEG of a 480x640 black image on which the
    generator itself has written "Camera Stopped" or "No camera feed",
    whenever the encoder accepts that image.  The tracker is only read,
    and the generator goes on to its next iteration. *)
Theorem generate_frames_substitutes_placeholder :
  forall (w : @World T) (t : T) (buffer : string),
    tracker w = Some t ->
    is_camera_running t = false \/ get_latest_frame t = None ->
    imencode ".jpg"
             (if is_camera_running t
              then PutText (Zeros 480 640 3) "No camera feed" (200, 240)
                           FONT_HERSHEY_SIMPLEX 1 (0, 0, 255) 2
              else PutText (Zeros 480 640 3) "Camera Stopped" (180, 240)
                           FONT_HERSHEY_SIMPLEX 1 (0, 255, 255) 2)
    = Ok (true, buffer) ->
    let crlf := String "013" (String "010" EmptyString) in
    let chunk := "--frame" ++ crlf ++ "Content-Type: image/jpeg" ++ crlf
                           ++ crlf ++ buffer ++ crlf in
    let reads := if is_camera_running t
                 then [TrackerCall m_is_camera_running;
                       TrackerCall m_get_latest_frame]
                 else [TrackerCall m_is_camera_running] in
    let w' := mkWorld (Some t) (active_connections w)
                      (trace w ++ reads ++ [Yield chunk])%list (ticks w) in
    generate_frames_iteration imencode w = (Ok tt, w')
    /\ forall n, generate_frames imencode (S n) w = generate_frames imencode n w'.
Proof.
  intros w t buffer Ht Hno Henc crlf chunk reads w'.
  assert (E : generate_frames_iteration imencode w = (Ok tt, w')).
  { subst w' reads chunk crlf. destruct w as [tr conns tc k]. cbn in Ht.
    subst tr. unfold generate_frames_iteration, encode_and_yield.
    run_handler.
    destruct (is_camera_running t) eqn:Hr.
    - destruct Hno as [F|Hf]; [discriminate|]. cbn. rewrite Hf.
      unfold no_camera_feed_frame, placeholder. rewrite Henc. cbn.
      now rewrite app_assoc_2.
    - cbn. unfold camera_stopped_frame, placeholder. rewrite Henc. cbn.
      now rewrite app_assoc_1. }
  split; [exact E|].
  intros n. cbn [generate_frames]. unfold bind, try_except, ret.
  now rewrite E.
Qed.

(** ** WebSocket endpoint *)

Lemma extends_refl (ws : WebSocket) (w : @World T) : extends ws w w.
Proof.
  exists []. split; [|constructor]. unfold appended. now rewrite app_nil_r.
Qed.

Lemma extends_trans (ws : WebSocket) (a b c : @World T) :
  extends ws a b -> extends ws b c -> extends ws a c.
Proof.
  intros (e1 & H1 & F1) (e2 & H2 & F2). exists (e1 ++ e2)%list.
  split; [|now apply Forall_app]. unfold appended in *.
  now rewrite H2, H1, app_assoc.
Qed.

Lemma extends_events (ws : WebSocket) (w w' : @World T) (evs : list Event) :
  Forall (loop_event ws) evs ->
  trace w' = (trace w ++ evs)%list ->
  extends ws w w'.
Proof. intros F E. exists evs. now split. Qed.

Lemma disconnect_trace (ws : WebSocket) (w : @World T) :
  trace (snd (disconnect ws w)) = trace w.
Proof.
  unfold disconnect, bind, get_connections, set_connections, ret.
  now destruct (list_contains ws (active_connections w)).
Qed.

Ltac loop_events :=
  repeat first
    [ apply Forall_nil
    | apply Forall_cons;
      [first [left; reflexivity | right; eexists; reflexivity]|] ].

Lemma receive_loop_extends (ws : WebSocket) :
  forall (incoming : list (Result string)) (w : @World T),
    extends ws w (snd (receive_loop ws_send_text clock ws incoming w)).
Proof.
  induction incoming as [|r rest IH]; intros w; [apply extends_refl|].
  cbn [receive_loop]. unfold_monad.
  destruct r as [data|e]; cbn.
  - destruct (String.eqb data "ping"); cbn.
    + destruct (ws_send_text ws _) as [[]|e]; cbn.
      * eapply extends_trans; [|apply IH].
        eapply extends_events; [|cbn; rewrite <- app_assoc; reflexivity].
        loop_events.
      * eapply extends_events; [|cbn; rewrite <- app_assoc; reflexivity].
        loop_events.
    + eapply extends_trans; [|apply IH].
      eapply extends_events; [|cbn; reflexivity].
      loop_events.
  - eapply extends_events; [|cbn; reflexivity].
    loop_events.
Qed.

Lemma try_except_trace {A : Type} (c : @M T A) (h : Exn -> @M T A) (w : @World T) :
  (forall e w', trace (snd (h e w')) = trace w') ->
  trace (snd (try_except c h w)) = trace (snd (c w)).
Proof.
  intros Hh. unfold try_except. destruct (c w) as [[a|e] w']; cbn; auto.
Qed.

Lemma disconnect_returned_trace (ws : WebSocket) (w : @World T) :
  trace (snd (bind (disconnect ws) (fun _ => ret Returned) w)) = trace w.
Proof.
  unfold bind. pose proof (disconnect_trace ws w) as Hd.
  destruct (disconnect ws w) as [[[]|e] w']; cbn in *; assumption.
Qed.

Lemma connect_accepted (ws : WebSocket) (w : @World T) :
  ws_accept ws = Ok tt ->
  connect ws_accept ws w
  = (Ok tt, mkWorld (tracker w) (active_connections w ++ [ws])%list
                    (trace w ++ [WsAccept ws])%list (ticks w)).
Proof.
  intros Hacc. unfold connect. unfold_monad. cbn. now rewrite Hacc.
Qed.

(** C6, as the code has it.  Once the handshake is accepted and a
    tracker is in place, the first thing the endpoint does on the socket is
    to send the serialised dict with the keys [event], [is_running],
    [total_detections_today] and [timestamp]: the event kind is
    [status_update], the flag and the count are the tracker's, the
    timestamp is the clock's reading.  Everything the endpoint does on the
    socket afterwards is a read or the reply to a ping, so this status
    message is sent once. *)
Theorem websocket_sends_initial_status :
  forall (w : @World T) (t : T) (ws : WebSocket) (incoming : list (Result string)),
    tracker w = Some t ->
    ws_accept ws = Ok tt ->
    let payload := [("event", JString "status_update");
                    ("is_running", JBool (is_camera_running t));
                    ("total_detections_today", JInt (get_today_detection_count t));
                    ("timestamp", JString (clock (ticks w)))] in
    exists rest,
      appended w (snd (websocket_endpoint ws_accept ws_send_text clock ws incoming w))
               ([WsAccept ws;
                 TrackerCall m_is_camera_running;
                 TrackerCall m_get_today_detection_count;
                 WsSend ws (json_dumps payload)] ++ rest)
      /\ Forall (loop_event ws) rest.
Proof.
  intros [tr conns tc k] t ws incoming Ht Hacc payload. cbn in Ht. subst tr.
  unfold websocket_endpoint. unfold bind at 1.
  rewrite (connect_accepted _ _ Hacc).
  cbn [tracker active_connections trace ticks].
  unfold appended. rewrite try_except_trace.
  2:{ intros e w'. destruct (is_WebSocketDisconnect e);
        apply disconnect_returned_trace. }
  subst payload. unfold_monad. unfold status_message. cbn.
  destruct (ws_send_text ws _) as [[]|e]; cbn.
  - match goal with
    | |- context [receive_loop ws_send_text clock ws incoming ?w0] =>
        destruct (receive_loop_extends ws incoming w0) as (evs & Hev & Fev)
    end.
    unfold appended in Hev. cbn in Hev. exists evs. rewrite Hev.
    split; [now rewrite <- !app_assoc|assumption].
  - exists []. split; [now rewrite <- !app_assoc|constructor].
Qed.

End ServerProperties.

(** * Properties of the Track Manager *)

Section TrackTermination.

Import TrackManager.
Local Open Scope nat_scope.

Variable cfg : Config.

Lemma insert_by_recency_perm (t : Track) (l : list Track) :
  Permutation (insert_by_recency t l) (t :: l).
Proof.
  induction l as [|u rest IH]; cbn; [reflexivity|].
  destruct (last_seen u <? last_seen t)%Z; [reflexivity|].
  rewrite IH. apply perm_swap.
Qed.

Lemma sort_by_recency_perm (l : list Track) :
  Permutation (sort_by_recency l) l.
Proof.
  induction l as [|t rest IH]; cbn; [reflexivity|].
  rewrite insert_by_recency_perm. now constructor.
Qed.

Lemma associate_tracks :
  forall (tracks : list Track) (unmatched : list Candidate),
    map fst (fst (associate cfg tracks unmatched)) = tracks.
Proof.
  induction tracks as [|t rest IH]; intros unmatched; [reflexivity|].
  cbn [associate].
  destruct (best_match cfg (last_box t) unmatched) as [[c unmatched']|].
  - specialize (IH unmatched').
    destruct (associate cfg rest unmatched') as [ms left]. cbn in *.
    now rewrite IH.
  - specialize (IH unmatched).
    destruct (associate cfg rest unmatched) as [ms left]. cbn in *.
    now rewrite IH.
Qed.

Lemma age_id (ts : Z) (p : Track * option Candidate) :
  track_id (age ts p) = track_id (fst p).
Proof. now destruct p as [t [c|]]. Qed.

Lemma aged_ids (st : State) (f : Frame) :
  Permutation (ids (aged cfg st f)) (ids (live st)).
Proof.
  unfold aged, ids. rewrite map_map.
  rewrite (map_ext _ (fun p => track_id (fst p)) (age_id (timestamp f))).
  rewrite <- (map_map fst track_id), associate_tracks.
  apply Permutation_map, sort_by_recency_perm.
Qed.

(** Every track of the aged list is the aged form of a live track. *)
Lemma aged_origin (st : State) (f : Frame) (t' : Track) :
  In t' (aged cfg st f) ->
  exists t oc, In t (live st) /\ t' = age (timestamp f) (t, oc).
Proof.
  unfold aged. rewrite in_map_iff. intros ([t oc] & E & Hin).
  exists t, oc. split; [|now symmetry].
  apply (Permutation_in _ (sort_by_recency_perm (live st))).
  rewrite <- (associate_tracks (sort_by_recency (live st)) (candidates f)).
  apply in_map_iff. now exists (t, oc).
Qed.

Lemma spawn_ids (ts : Z) :
  forall (l : list Candidate) (id : nat),
    ids (spawn ts id l) = seq id (List.length l).
Proof.
  induction l as [|c rest IH]; intros id; cbn; [reflexivity|].
  f_equal. apply IH.
Qed.

Lemma spawn_fresh (ts : Z) (l : list Candidate) (id : nat) (t : Track) :
  In t (spawn ts id l) ->
  id <= track_id t < id + List.length l /\ miss_counter t = 0.
Proof.
  revert id. induction l as [|c rest IH]; intros id; cbn; [tauto|].
  intros [<-|Hin]; cbn; [lia|].
  apply IH in Hin. lia.
Qed.

Lemma same_id_same_track (l : list Track) (a b : Track) :
  NoDup (ids l) -> In a l -> In b l -> track_id a = track_id b -> a = b.
Proof.
  induction l as [|x rest IH]; cbn; [tauto|].
  intros Hnd Ha Hb E. inversion Hnd as [|? ? Hx Hrest]; subst.
  destruct Ha as [->|Ha], Hb as [->|Hb]; trivial.
  - exfalso. apply Hx. rewrite E. now apply in_map.
  - exfalso. apply Hx. rewrite <- E. now apply in_map.
  - now apply IH.
Qed.

Lemma NoDup_ids_filter (p : Track -> bool) :
  forall l : list Track, NoDup (ids l) -> NoDup (ids (filter p l)).
Proof.
  induction l as [|x rest IH]; cbn; [trivial|].
  intros Hnd. inversion Hnd as [|? ? Hx Hrest]; subst.
  destruct (p x); cbn; [|now apply IH].
  constructor; [|now apply IH].
  intros Hin. apply Hx. unfold ids in *. rewrite in_map_iff in *.
  destruct Hin as (y & E & Hy). apply filter_In in Hy. exists y. tauto.
Qed.

Lemma aged_bound (st : State) (f : Frame) (t' : Track) :
  well_formed cfg st -> In t' (aged cfg st f) ->
  miss_counter t' <= S (grace_threshold cfg) /\ track_id t' < next_id st.
Proof.
  intros (Hb & Hf & _) Hin.
  destruct (aged_origin _ _ _ Hin) as (t & oc & Ht & ->).
  rewrite Forall_forall in Hb, Hf. specialize (Hb t Ht). specialize (Hf t Ht).
  destruct oc as [c|]; cbn; lia.
Qed.

Lemma step_well_formed (st : State) (f : Frame) :
  well_formed cfg st -> well_formed cfg (state_after (step cfg st f)).
Proof.
  intros Hwf. pose proof Hwf as (Hb & Hf & Hnd).
  unfold step. cbn [state_after live next_id].
  set (left := snd (associate cfg (sort_by_recency (live st)) (candidates f))).
  repeat split.
  - apply Forall_app. split; apply Forall_forall; intros t Hin.
    + apply filter_In in Hin. destruct Hin as [_ Hin]. unfold exceeds_grace in Hin.
      apply negb_true_iff, Nat.ltb_ge in Hin. exact Hin.
    + apply spawn_fresh in Hin. lia.
  - apply Forall_app. split; apply Forall_forall; intros t Hin.
    + apply filter_In in Hin. destruct Hin as [Hin _].
      pose proof (aged_bound _ _ _ Hwf Hin). cbn [next_id]. lia.
    + apply spawn_fresh in Hin. cbn [next_id]. lia.
  - unfold ids. cbn [live]. rewrite map_app. apply NoDup_app.
    + apply NoDup_ids_filter.
      apply (Permutation_NoDup (Permutation_sym (aged_ids st f))). exact Hnd.
    + fold (ids (spawn (timestamp f) (next_id st) left)).
      rewrite spawn_ids. apply seq_NoDup.
    + intros n Hs Hn.
      fold (ids (spawn (timestamp f) (next_id st) left)) in Hn.
      rewrite spawn_ids, in_seq in Hn.
      apply in_map_iff in Hs. destruct Hs as (t & <- & Hin).
      apply filter_In in Hin. destruct Hin as [Hin _].
      pose proof (aged_bound _ _ _ Hwf Hin). lia.
Qed.

Lemma reachable_well_formed (st : State) :
  reachable cfg st -> well_formed cfg st.
Proof.
  induction 1 as [|st f Hr IH|st Hr IH].
  - repeat split; constructor.
  - now apply step_well_formed.
  - destruct IH as (_ & _ & _). repeat split; constructor.
Qed.

Lemma run_reachable (frames : list Frame) :
  forall st : State,
    reachable cfg st -> reachable cfg (fst (run cfg st frames)).
Proof.
  induction frames as [|f rest IH]; intros st Hr; [exact Hr|].
  cbn [run]. specialize (IH _ (reachable_step cfg st f Hr)).
  now destruct (run cfg (state_after (step cfg st f)) rest).
Qed.

(** The fate of an aged track: terminated exactly when its counter is
    past the threshold, live after the frame exactly when it is not. *)
Lemma aged_track_fate (st : State) (f : Frame) (t' : Track) :
  well_formed cfg st ->
  In t' (aged cfg st f) ->
  let o := step cfg st f in
  (In t' (terminated o) <-> grace_threshold cfg < miss_counter t')
  /\ (In t' (live (state_after o)) <-> miss_counter t' <= grace_threshold cfg)
  /\ (grace_threshold cfg < miss_counter t' ->
      ~ In (track_id t') (ids (live (state_after o)))
      /\ In (detection_of t') (emitted o)).
Proof.
  intros Hwf Haged o. pose proof Hwf as (Hb & Hf & Hnd).
  assert (Hnd' : NoDup (ids (aged cfg st f))).
  { apply (Permutation_NoDup (Permutation_sym (aged_ids st f))). exact Hnd. }
  assert (Hterm : In t' (terminated o) <-> grace_threshold cfg < miss_counter t').
  { subst o. unfold step. cbn [terminated]. rewrite filter_In.
    unfold exceeds_grace. rewrite Nat.ltb_lt. tauto. }
  assert (Hspawn : forall s,
             In s (spawn (timestamp f) (next_id st)
                         (snd (associate cfg (sort_by_recency (live st))
                                         (candidates f)))) ->
             track_id s <> track_id t').
  { intros s Hs. apply spawn_fresh in Hs.
    pose proof (aged_bound _ _ _ Hwf Haged). lia. }
  split; [exact Hterm|]. split.
  - subst o. unfold step. cbn [state_after live].
    rewrite in_app_iff, filter_In. unfold exceeds_grace.
    rewrite negb_true_iff, Nat.ltb_ge. split.
    + intros [[_ Hle]|Hs]; [exact Hle|].
      exfalso. now apply (Hspawn _ Hs).
    + intros Hle. left. now split.
  - intros Hgt. split.
    + subst o. unfold step. cbn [state_after live]. unfold ids.
      rewrite map_app, in_app_iff, !in_map_iff.
      intros [(s & E & Hs)|(s & E & Hs)].
      * apply filter_In in Hs. destruct Hs as [Hs Hn].
        assert (s = t')
          by (apply (same_id_same_track (aged cfg st f)); trivial).
        subst s. unfold exceeds_grace in Hn.
        apply negb_true_iff, Nat.ltb_ge in Hn. lia.
      * now apply (Hspawn s).
    + unfold emitted. apply in_map. now apply Hterm.
Qed.

(** ** Association *)

Lemma Qlt_bool_false (a b : Q) : Qlt_bool a b = false <-> (b <= a)%Q.
Proof.
  unfold Qlt_bool. rewrite negb_false_iff. apply Qle_bool_iff.
Qed.

Lemma Qlt_bool_true (a b : Q) : Qlt_bool a b = true <-> (a < b)%Q.
Proof.
  unfold Qlt_bool. rewrite negb_true_iff. split.
  - intros E. apply Qnot_le_lt. intros F. apply Qle_bool_iff in F. congruence.
  - intros Hlt. destruct (Qle_bool b a) eqn:E; [|reflexivity].
    apply Qle_bool_iff in E. exfalso. now apply (Qlt_not_le _ _ Hlt).
Qed.

Lemma best_index_spec (box : BBox) :
  forall (l : list Candidate) (i : nat) (best : option (nat * Q))
         (j : nat) (o : Q),
    best_index cfg box l i best = Some (j, o) ->
    (best = Some (j, o)
     \/ exists c, nth_error l (j - i) = Some c /\ i <= j
                  /\ o = iou box (cand_box c)
                  /\ overlaps cfg box c = true)
    /\ (forall c', In c' l -> overlaps cfg box c' = true ->
                   (iou box (cand_box c') <= o)%Q)
    /\ (forall jb ob, best = Some (jb, ob) -> (ob <= o)%Q).
Proof.
  induction l as [|c rest IH]; intros i best j o Hres.
  - cbn in Hres. subst best. split; [now left|]. split; [intros c' []|].
    intros jb ob [= -> ->]. apply Qle_refl.
  - cbn [best_index] in Hres. fold (overlaps cfg box c) in Hres.
    assert (Hshift : forall c0, nth_error rest (j - S i) = Some c0 ->
                                S i <= j ->
                                nth_error (c :: rest) (j - i) = Some c0).
    { intros c0 Hn Hle. replace (j - i) with (S (j - S i)) by lia. exact Hn. }
    destruct (overlaps cfg box c) eqn:Eo.
    + destruct best as [[jb ob]|].
      * destruct (Qlt_bool ob (iou box (cand_box c))) eqn:Elt.
        -- destruct (IH _ _ _ _ Hres) as ([Hb|(c0 & Hn & Hle & Ho & Hov)] & Hmax & Hprev).
           ++ injection Hb as <- <-. split; [|split].
              ** right. exists c. rewrite Nat.sub_diag. repeat split; trivial.
              ** intros c' [<-|Hin] Hov'; [apply Qle_refl|now apply Hmax].
              ** intros jb' ob' [= <- <-]. apply Qlt_bool_true in Elt.
                 now apply Qlt_le_weak.
           ++ split; [|split].
              ** right. exists c0. repeat split; trivial; [auto|lia].
              ** intros c' [<-|Hin] Hov'; [|now apply Hmax].
                 now apply (Hprev i).
              ** intros jb' ob' [= <- <-]. apply Qlt_bool_true in Elt.
                 apply Qle_trans with (iou box (cand_box c));
                   [now apply Qlt_le_weak|now apply (Hprev i)].
        -- apply Qlt_bool_false in Elt.
           destruct (IH _ _ _ _ Hres) as ([Hb|(c0 & Hn & Hle & Ho & Hov)] & Hmax & Hprev).
           ++ split; [now left|]. split; [|exact Hprev].
              intros c' [<-|Hin] Hov'; [|now apply Hmax].
              apply Qle_trans with ob; [exact Elt|now apply (Hprev jb)].
           ++ split; [|split; [|exact Hprev]].
              ** right. exists c0. repeat split; trivial; [auto|lia].
              ** intros c' [<-|Hin] Hov'; [|now apply Hmax].
                 apply Qle_trans with ob; [exact Elt|now apply (Hprev jb)].
      * destruct (IH _ _ _ _ Hres) as ([Hb|(c0 & Hn & Hle & Ho & Hov)] & Hmax & Hprev).
        -- injection Hb as <- <-. split; [|split].
           ++ right. exists c. rewrite Nat.sub_diag. repeat split; trivial.
           ++ intros c' [<-|Hin] Hov'; [apply Qle_refl|now apply Hmax].
           ++ intros jb ob [=].
        -- split; [|split].
           ++ right. exists c0. repeat split; trivial; [auto|lia].
           ++ intros c' [<-|Hin] Hov'; [|now apply Hmax]. now apply (Hprev i).
           ++ intros jb ob [=].
    + destruct (IH _ _ _ _ Hres) as ([Hb|(c0 & Hn & Hle & Ho & Hov)] & Hmax & Hprev).
      * split; [now left|]. split; [|exact Hprev].
        intros c' [<-|Hin] Hov'; [congruence|now apply Hmax].
      * split; [|split; [|exact Hprev]].
        -- right. exists c0. repeat split; trivial; [auto|lia].
        -- intros c' [<-|Hin] Hov'; [congruence|now apply Hmax].
Qed.

Lemma best_index_None (box : BBox) :
  forall (l : list Candidate) (i : nat) (best : option (nat * Q)),
    best_index cfg box l i best = None ->
    best = None /\ forall c, In c l -> overlaps cfg box c = false.
Proof.
  induction l as [|c rest IH]; intros i best Hres.
  - cbn in Hres. split; [exact Hres|intros c []].
  - cbn [best_index] in Hres. fold (overlaps cfg box c) in Hres.
    destruct (IH _ _ Hres) as [Hb Hrest].
    destruct (overlaps cfg box c) eqn:Eo.
    + exfalso. destruct best as [[jb ob]|]; [|discriminate].
      destruct (Qlt_bool ob (iou box (cand_box c))); discriminate.
    + split; [exact Hb|]. intros c' [<-|Hin]; [exact Eo|now apply Hrest].
Qed.

Lemma remove_nth_In {A : Type} (x : A) :
  forall (l : list A) (n : nat), In x (remove_nth n l) -> In x l.
Proof.
  induction l as [|y rest IH]; intros n; [now destruct n|].
  destruct n as [|n]; cbn; [tauto|]. intros [->|Hin]; [now left|].
  right. now apply (IH n).
Qed.

Lemma best_match_Some (box : BBox) (l l' : list Candidate) (c : Candidate) :
  best_match cfg box l = Some (c, l') ->
  In c l
  /\ overlaps cfg box c = true
  /\ (forall c', In c' l -> overlaps cfg box c' = true ->
                 (iou box (cand_box c') <= iou box (cand_box c))%Q)
  /\ (forall x, In x l' -> In x l).
Proof.
  unfold best_match. intros Hm.
  destruct (best_index cfg box l 0 None) as [[i o]|] eqn:Eb; [|discriminate].
  destruct (best_index_spec box _ _ _ _ _ Eb)
    as ([F|(c0 & Hn & _ & Ho & Hov)] & Hmax & _); [discriminate|].
  rewrite Nat.sub_0_r in Hn. rewrite Hn in Hm. injection Hm as <- <-.
  split; [now apply (nth_error_In _ i)|]. split; [exact Hov|].
  split; [now rewrite <- Ho|]. intros x. apply remove_nth_In.
Qed.

Lemma best_match_None (box : BBox) (l : list Candidate) :
  best_match cfg box l = None ->
  forall c, In c l -> overlaps cfg box c = false.
Proof.
  unfold best_match. intros Hm.
  destruct (best_index cfg box l 0 None) as [[i o]|] eqn:Eb.
  - exfalso.
    destruct (best_index_spec box _ _ _ _ _ Eb)
      as ([F|(c0 & Hn & _)] & _); [discriminate|].
    rewrite Nat.sub_0_r in Hn. rewrite Hn in Hm. discriminate.
  - now apply (best_index_None box _ _ _ Eb).
Qed.

(** Greedy association, as far as one track can tell: a track is paired
    only with a candidate that overlaps its box, none of the candidates
    left at the end overlaps it more, and a track left alone had no
    overlapping candidate to take. *)
Lemma associate_spec :
  forall (tracks : list Track) (unmatched : list Candidate),
    (forall x, In x (snd (associate cfg tracks unmatched)) -> In x unmatched)
    /\ (forall t c,
           In (t, Some c) (fst (associate cfg tracks unmatched)) ->
           In c unmatched
           /\ overlaps cfg (last_box t) c = true
           /\ forall c', In c' (snd (associate cfg tracks unmatched)) ->
                         (iou (last_box t) (cand_box c')
                          <= iou (last_box t) (cand_box c))%Q)
    /\ (forall t,
           In (t, None) (fst (associate cfg tracks unmatched)) ->
           forall c', In c' (snd (associate cfg tracks unmatched)) ->
                      overlaps cfg (last_box t) c' = false).
Proof.
  induction tracks as [|t rest IH]; intros unmatched.
  - cbn. repeat split; tauto.
  - cbn [associate].
    destruct (best_match cfg (last_box t) unmatched) as [[c unmatched']|] eqn:Em.
    + destruct (best_match_Some _ _ _ _ Em) as (Hc & Hov & Hmax & Hsub).
      destruct (IH unmatched') as (I1 & I2 & I3).
      destruct (associate cfg rest unmatched') as [ms left]. cbn [fst snd] in *.
      split; [intros x Hx; auto|]. split.
      * intros t0 c0 [[= <- <-]|Hin].
        -- split; [exact Hc|]. split; [exact Hov|]. intros c' Hc'.
           destruct (overlaps cfg (last_box t) c') eqn:Eo'.
           ++ apply Hmax; auto.
           ++ apply Qlt_bool_false in Eo'. apply Qlt_bool_true in Hov.
              apply Qle_trans with (min_overlap cfg);
                [exact Eo'|now apply Qlt_le_weak].
        -- destruct (I2 _ _ Hin) as (H1 & H2 & H3). auto.
      * intros t0 [[=]|Hin]. now apply I3.
    + pose proof (best_match_None _ _ Em) as Hnone.
      destruct (IH unmatched) as (I1 & I2 & I3).
      destruct (associate cfg rest unmatched) as [ms left]. cbn [fst snd] in *.
      split; [exact I1|]. split.
      * intros t0 c0 [[=]|Hin]. now apply I2.
      * intros t0 [[= <-]|Hin]; [|now apply I3].
        intros c' Hc'. apply Hnone. now apply I1.
Qed.

Lemma pairing_of_live (st : State) (f : Frame) (t : Track) :
  In t (live st) -> exists oc, In (t, oc) (pairing cfg st f).
Proof.
  intros Hin.
  apply (Permutation_in _ (Permutation_sym (sort_by_recency_perm (live st)))) in Hin.
  rewrite <- (associate_tracks (sort_by_recency (live st)) (candidates f)) in Hin.
  apply in_map_iff in Hin. destruct Hin as ([t0 oc] & E & Hin). cbn in E. subst t0.
  now exists oc.
Qed.

Lemma out_of_sight_unpaired (st : State) (f : Frame) (t : Track)
      (oc : option Candidate) :
  out_of_sight cfg (last_box t) f = true ->
  In (t, oc) (pairing cfg st f) ->
  oc = None.
Proof.
  intros Hout Hin. destruct oc as [c|]; [|reflexivity]. exfalso.
  destruct (associate_spec (sort_by_recency (live st)) (candidates f))
    as (_ & I2 & _).
  destruct (I2 _ _ Hin) as (Hc & Hov & _).
  unfold out_of_sight in Hout. rewrite forallb_forall in Hout.
  specialize (Hout c Hc). rewrite Hov in Hout. discriminate.
Qed.

(** ** Runs of frames that miss a track *)

Lemma missed_once (t : Track) (k : nat) :
  missed (missed t 1) k = missed t (S k).
Proof. unfold missed. cbn. f_equal. lia. Qed.

Lemma step_miss (st : State) (f : Frame) (t : Track) :
  In t (live st) ->
  out_of_sight cfg (last_box t) f = true ->
  In (missed t 1) (aged cfg st f).
Proof.
  intros Hin Hout. destruct (pairing_of_live st f t Hin) as [oc Hp].
  rewrite (out_of_sight_unpaired _ _ _ _ Hout Hp) in Hp.
  unfold aged. apply in_map_iff. exists (t, None). split; [reflexivity|exact Hp].
Qed.

Lemma run_misses :
  forall (fs : list Frame) (st : State) (t : Track),
    well_formed cfg st ->
    In t (live st) ->
    Forall (fun f => out_of_sight cfg (last_box t) f = true) fs ->
    List.length fs + miss_counter t <= grace_threshold cfg ->
    In (missed t (List.length fs)) (live (fst (run cfg st fs)))
    /\ Forall (fun out => ~ In (track_id t) (ids out)) (snd (run cfg st fs)).
Proof.
  induction fs as [|f rest IH]; intros st t Hwf Hin Hall Hle.
  - cbn. split; [now destruct t|constructor].
  - inversion Hall as [|? ? Hout Hrest]; subst. cbn [List.length] in Hle.
    pose proof (step_miss st f t Hin Hout) as Haged.
    destruct (aged_track_fate st f (missed t 1) Hwf Haged) as (Hterm & Hlive & _).
    cbv zeta in Hterm, Hlive.
    assert (Hin1 : In (missed t 1) (live (state_after (step cfg st f))))
      by (apply Hlive; cbn; lia).
    assert (Hnd' : NoDup (ids (aged cfg st f))).
    { destruct Hwf as (_ & _ & Hnd).
      apply (Permutation_NoDup (Permutation_sym (aged_ids st f))). exact Hnd. }
    destruct (IH (state_after (step cfg st f)) (missed t 1)
                 (step_well_formed st f Hwf) Hin1 Hrest) as [I1 I2].
    { cbn. lia. }
    cbn [run].
    destruct (run cfg (state_after (step cfg st f)) rest) as [st' outs].
    cbn [fst snd List.length] in *. rewrite missed_once in I1.
    split; [exact I1|]. constructor; [|exact I2].
    unfold ids. rewrite in_map_iff. intros (s & E & Hs).
    assert (Hs' : In s (aged cfg st f)).
    { unfold step in Hs. cbn [terminated] in Hs. now apply filter_In in Hs. }
    assert (s = missed t 1)
      by (apply (same_id_same_track (aged cfg st f)); trivial).
    subst s. apply Hterm in Hs. cbn in Hs. lia.
Qed.

(** C5. In every state the manager can reach, a live track is never
    past the grace threshold, and on each frame its counter is reset
    exactly when association pairs it with a candidate of that frame that
    overlaps its box (none of the candidates left over overlapping more)
    and incremented when it is left unpaired, which is the case whenever
    the frame has no overlapping candidate.  The aged track is terminated
    - dropped from the live set, its detection record emitted - if and only
    if its counter then exceeds the threshold, that is if and only if it
    was missed while standing at the threshold.  Over frames that miss the
    track: as long as the misses do not exceed the threshold the track
    stays live and nothing is emitted for it (never early), and the frame
    that takes the counter past the threshold terminates it with its last
    sighting as end time (never late). *)
Theorem track_terminates_iff_grace_exceeded :
  forall (st : State) (t : Track),
    reachable cfg st ->
    In t (live st) ->
    miss_counter t <= grace_threshold cfg
    /\ (forall f : Frame,
           let o := step cfg st f in
           exists oc,
             In (t, oc) (pairing cfg st f)
             /\ match oc with
                | Some c =>
                    In c (candidates f)
                    /\ overlaps cfg (last_box t) c = true
                    /\ forall c', In c' (leftover cfg st f) ->
                                  (iou (last_box t) (cand_box c')
                                   <= iou (last_box t) (cand_box c))%Q
                | None =>
                    forall c', In c' (leftover cfg st f) ->
                               overlaps cfg (last_box t) c' = false
                end
             /\ (out_of_sight cfg (last_box t) f = true -> oc = None)
             /\ let t' :=
                  match oc with
                  | Some c =>
                      mkTrack (track_id t) (start_ts t) (timestamp f)
                              (cand_box c) 0
                  | None =>
                      mkTrack (track_id t) (start_ts t) (last_seen t)
                              (last_box t) (S (miss_counter t))
                  end in
                In t' (aged cfg st f)
                /\ ((In t' (terminated o)
                     /\ ~ In (track_id t) (ids (live (state_after o)))
                     /\ In (detection_of t') (emitted o))
                    <-> grace_threshold cfg < miss_counter t')
                /\ (In t' (live (state_after o))
                    <-> miss_counter t' <= grace_threshold cfg)
                /\ (grace_threshold cfg < miss_counter t'
                    <-> oc = None /\ miss_counter t = grace_threshold cfg))
    /\ (forall fs : list Frame,
           Forall (fun f => out_of_sight cfg (last_box t) f = true) fs ->
           (List.length fs + miss_counter t <= grace_threshold cfg ->
            In (missed t (List.length fs)) (live (fst (run cfg st fs)))
            /\ Forall (fun out => ~ In (track_id t) (ids out))
                      (snd (run cfg st fs)))
           /\ (forall f : Frame,
                  out_of_sight cfg (last_box t) f = true ->
                  List.length fs + miss_counter t = grace_threshold cfg ->
                  let o := step cfg (fst (run cfg st fs)) f in
                  In (missed t (S (List.length fs))) (terminated o)
                  /\ In (mkDetection (start_ts t) (last_seen t)) (emitted o)
                  /\ ~ In (track_id t) (ids (live (state_after o))))).
Proof.
  intros st t Hr Hin.
  pose proof (reachable_well_formed _ Hr) as Hwf.
  pose proof Hwf as (Hb & _ & _). rewrite Forall_forall in Hb.
  pose proof (Hb t Hin) as Hbt.
  split; [exact Hbt|]. split.
  - intros f o. destruct (pairing_of_live st f t Hin) as [oc Hp].
    exists oc. split; [exact Hp|].
    destruct (associate_spec (sort_by_recency (live st)) (candidates f))
      as (_ & I2 & I3).
    split; [destruct oc as [c|]; [now apply I2|now apply I3]|].
    split; [intros Hout; now apply (out_of_sight_unpaired st f t)|].
    assert (Haged : In (age (timestamp f) (t, oc)) (aged cfg st f)).
    { unfold aged. apply in_map_iff. now exists (t, oc). }
    destruct (aged_track_fate st f _ Hwf Haged) as (Hterm & Hlive & Hgone).
    cbv zeta in Hterm, Hlive, Hgone. fold o in Hterm, Hlive, Hgone.
    assert (Hid : track_id (age (timestamp f) (t, oc)) = track_id t)
      by apply age_id.
    rewrite Hid in Hgone.
    change (age (timestamp f) (t, oc))
      with (match oc with
            | Some c =>
                mkTrack (track_id t) (start_ts t) (timestamp f) (cand_box c) 0
            | None =>
                mkTrack (track_id t) (start_ts t) (last_seen t) (last_box t)
                        (S (miss_counter t))
            end) in *.
    cbv zeta. split; [exact Haged|]. split; [|split; [exact Hlive|]].
    + split; [intros (Ht & _); now apply Hterm|].
      intros Hgt. split; [now apply Hterm|now apply Hgone].
    + destruct oc as [c|]; cbn; split.
      * lia.
      * intros [F _]. discriminate.
      * intros Hgt. split; [reflexivity|lia].
      * intros [_ E]. lia.
  - intros fs Hall. split.
    + intros Hle. now apply run_misses.
    + intros f Hout Heq o.
      destruct (run_misses fs st t Hwf Hin Hall) as [Hk _]; [lia|].
      pose proof (reachable_well_formed _ (run_reachable fs st Hr)) as Hwf'.
      pose proof (step_miss _ f _ Hk Hout) as Haged.
      change (missed (missed t (List.length fs)) 1)
        with (missed t (S (List.length fs))) in Haged.
      destruct (aged_track_fate _ f _ Hwf' Haged) as (Hterm & _ & Hgone).
      cbv zeta in Hterm, Hgone. fold o in Hterm, Hgone.
      assert (Hgt : grace_threshold cfg
                    < miss_counter (missed t (S (List.length fs))))
        by (cbn; lia).
      split; [now apply Hterm|]. destruct (Hgone Hgt) as [G1 G2].
      split; [exact G2|exact G1].
Qed.

End TrackTermination.

(** * Concrete runs *)

(** The wire format of the status message. *)
Example status_message_on_the_wire :
  json_dumps (status_message false 3 "T")
  = "{" ++ json_quote "event" ++ ": " ++ json_quote "status_update" ++ ", "
        ++ json_quote "is_running" ++ ": false, "
        ++ json_quote "total_detections_today" ++ ": 3, "
        ++ json_quote "timestamp" ++ ": " ++ json_quote "T" ++ "}".
Proof. reflexivity. Qed.

(** A broadcast to three peers, the second of which has gone away. *)
Example broadcast_drops_closed_peer :
  broadcast (send_except 2%nat) "hi" (world_of stopped_engine [1; 2; 3]%nat)
  = (Ok tt,
     mkWorld (Some stopped_engine) [1; 3]%nat
             [WsSend 1%nat "hi"; WsSend 2%nat "hi"; WsSend 3%nat "hi"] 0).
Proof. reflexivity. Qed.

(** Without a tracker the generator yields the stream-error frame and
    ends. *)
Example generate_frames_without_tracker :
  generate_frames jpeg_stub 3 world_without_tracker
  = (Ok Exhausted, mkWorld None [] [Yield (multipart "JFIF")] 0).
Proof. reflexivity. Qed.

(** Section 8 of the spec: three sightings of one object, then six
    frames without candidates, grace threshold 5.  The track ends on the
    sixth empty frame, with the third sighting as its end time; after five
    empty frames it is still live. *)
Example grace_scenario_six_misses :
  snd (TrackManager.run TrackManager.sample_config TrackManager.init
         [TrackManager.sighting 1; TrackManager.sighting 2;
          TrackManager.sighting 3; TrackManager.blank 4; TrackManager.blank 5;
          TrackManager.blank 6; TrackManager.blank 7; TrackManager.blank 8;
          TrackManager.blank 9])
  = [[]; []; []; []; []; []; []; [];
     [TrackManager.mkTrack 0 1 3 TrackManager.sample_box 6]].
Proof. vm_compute. reflexivity. Qed.

Example grace_scenario_five_misses :
  TrackManager.run TrackManager.sample_config TrackManager.init
    [TrackManager.sighting 1; TrackManager.sighting 2;
     TrackManager.sighting 3; TrackManager.blank 4; TrackManager.blank 5;
     TrackManager.blank 6; TrackManager.blank 7; TrackManager.blank 8]
  = (TrackManager.mkState
       [TrackManager.mkTrack 0 1 3 TrackManager.sample_box 5] 1,
     [[]; []; []; []; []; []; []; []]).
Proof. vm_compute. reflexivity. Qed.

(** C6, as stated, fails on the key of the count.  In the sample
    handshake the only text sent is the dump of the dict the endpoint
    builds; that dict has no key [today_detection_count], and no text with
    that key in the count's place is ever sent, whatever the value and the
    timestamp. *)
Lemma websocket_status_count_key_counterexample :
  filter is_send (trace sample_handshake)
  = [WsSend 1%nat (json_dumps (status_message false 3 (noon 0)))]
  /\ dict_get "today_detection_count" (status_message false 3 (noon 0)) = None
  /\ dict_keys (status_message false 3 (noon 0))
     = ["event"; "is_running"; "total_detections_today"; "timestamp"]
  /\ forall (v : JsonValue) (ts : string),
      ~ In (WsSend 1%nat
              (json_dumps [("event", JString "status_update");
                           ("is_running", JBool false);
                           ("today_detection_count", v);
                           ("timestamp", JString ts)]))
           (trace sample_handshake).
Proof.
  split; [reflexivity|]. split; [reflexivity|]. split; [reflexivity|].
  intros v ts Hin. vm_compute in Hin.
  destruct Hin as [F|[F|[F|[F|[]]]]]; discriminate F.
Qed.

Lemma camera_control_start_already_running_witness :
  tracker (world_of running_engine []) = Some running_engine
  /\ lower "START" = "start"
  /\ is_camera_running running_engine = true
  /\ camera_control "START" (world_of running_engine [])
     = (Ok (mkCameraStatus true "Camera is already running" 3),
        with_trace (world_of running_engine [])
                   [TrackerCall m_is_camera_running;
                    TrackerCall m_get_today_detection_count]).
Proof.
  split; [reflexivity|]. split; [reflexivity|]. split; [reflexivity|].
  exact (proj1 (camera_control_start_already_running
                  (world_of running_engine []) running_engine "START"
                  eq_refl eq_refl eq_refl)).
Defined.

Lemma camera_control_stop_already_stopped_witness :
  tracker (world_of stopped_engine []) = Some stopped_engine
  /\ lower "Stop" = "stop"
  /\ is_camera_running stopped_engine = false
  /\ camera_control "Stop" (world_of stopped_engine [])
     = (Ok (mkCameraStatus false "Camera is already stopped" 3),
        with_trace (world_of stopped_engine [])
                   [TrackerCall m_is_camera_running;
                    TrackerCall m_get_today_detection_count]).
Proof.
  split; [reflexivity|]. split; [reflexivity|]. split; [reflexivity|].
  exact (proj1 (camera_control_stop_already_stopped
                  (world_of stopped_engine []) stopped_engine "Stop"
                  eq_refl eq_refl eq_refl)).
Defined.

Lemma camera_control_start_decided_by_tracker_witness :
  (fst (start stopped_engine) = true
   /\ fst (camera_control "start" (world_of stopped_engine []))
      = Ok (mkCameraStatus true "Camera started successfully" 3))
  /\ (fst (start unplugged_engine) = false
      /\ fst (camera_control "start" (world_of unplugged_engine []))
         = Raise (HTTPException 500 "Failed to start camera")).
Proof.
  split; (split; [reflexivity|]).
  - exact (f_equal fst
             (proj1 (camera_control_start_decided_by_tracker
                       (world_of stopped_engine []) stopped_engine "start"
                       eq_refl eq_refl eq_refl) eq_refl)).
  - exact (f_equal fst
             (proj2 (camera_control_start_decided_by_tracker
                       (world_of unplugged_engine []) unplugged_engine "start"
                       eq_refl eq_refl eq_refl) eq_refl)).
Defined.

Lemma camera_control_invalid_action_witness :
  lower "status" <> "start"
  /\ lower "status" <> "stop"
  /\ camera_control "status" (world_of running_engine [])
     = (Raise (HTTPException 400 "Invalid action. Use 'start' or 'stop'"),
        world_of running_engine []).
Proof.
  assert (H1 : lower "status" <> "start") by (cbn; discriminate).
  assert (H2 : lower "status" <> "stop") by (cbn; discriminate).
  split; [exact H1|]. split; [exact H2|].
  exact (camera_control_invalid_action
           (world_of running_engine []) running_engine "status" eq_refl H1 H2).
Defined.

Lemma camera_status_read_only_witness :
  tracker (world_of running_engine [1; 2]%nat) = Some running_engine
  /\ fst (camera_status (world_of running_engine [1; 2]%nat))
     = Ok (mkCameraStatus true "Camera status retrieved" 3).
Proof.
  split; [reflexivity|].
  exact (proj2 (proj2 (proj2 (proj2
           (camera_status_read_only (world_of running_engine [1; 2]%nat)))))
           running_engine eq_refl).
Defined.

Lemma status_routes_total_without_tracker_witness :
  tracker world_without_tracker = None
  /\ camera_status world_without_tracker
     = (Ok (mkCameraStatus false "Tracker not initialized" 0),
        world_without_tracker).
Proof.
  split; [reflexivity|].
  exact (proj1 (status_routes_total_without_tracker noon
                  world_without_tracker eq_refl)).
Defined.

Lemma broadcast_removes_failed_connections_witness :
  active_connections world_without_tracker = []
  /\ broadcast (send_except 2%nat) "hello" world_without_tracker
     = (Ok tt, world_without_tracker).
Proof.
  split; [reflexivity|].
  exact (proj2 (proj2 (proj2 (proj2 (proj2
           (broadcast_removes_failed_connections (send_except 2%nat) "hello"
              world_without_tracker))))) eq_refl).
Defined.

Lemma generate_frames_substitutes_placeholder_witness :
  tracker (world_of stopped_engine []) = Some stopped_engine
  /\ (is_camera_running stopped_engine = false
      \/ get_latest_frame stopped_engine = None)
  /\ jpeg_stub ".jpg"
               (PutText (Zeros 480 640 3) "Camera Stopped" (180, 240)
                        FONT_HERSHEY_SIMPLEX 1 (0, 255, 255) 2)
     = Ok (true, "JFIF")
  /\ generate_frames_iteration jpeg_stub (world_of stopped_engine [])
     = (Ok tt,
        mkWorld (Some stopped_engine) []
                [TrackerCall m_is_camera_running;
                 Yield ("--frame" ++ String "013" (String "010"
                          ("Content-Type: image/jpeg"
                             ++ String "013" (String "010"
                                  (String "013" (String "010"
                                     ("JFIF" ++ String "013"
                                        (String "010" EmptyString))))))))]
                0).
Proof.
  split; [reflexivity|]. split; [left; reflexivity|]. split; [reflexivity|].
  exact (proj1 (generate_frames_substitutes_placeholder jpeg_stub
                  (world_of stopped_engine []) stopped_engine "JFIF"
                  eq_refl (or_introl eq_refl) eq_refl)).
Defined.

Lemma websocket_sends_initial_status_witness :
  tracker (world_of stopped_engine []) = Some stopped_engine
  /\ accept_all 1%nat = Ok tt
  /\ exists rest,
      appended (world_of stopped_engine []) sample_handshake
               ([WsAccept 1%nat;
                 TrackerCall m_is_camera_running;
                 TrackerCall m_get_today_detection_count;
                 WsSend 1%nat (json_dumps (status_message false 3 (noon 0)))]
                  ++ rest)
      /\ Forall (loop_event 1%nat) rest.
Proof.
  split; [reflexivity|]. split; [reflexivity|].
  exact (websocket_sends_initial_status accept_all send_all noon
           (world_of stopped_engine []) stopped_engine 1%nat []
           eq_refl eq_refl).
Defined.

Lemma track_terminates_iff_grace_exceeded_witness :
  TrackManager.reachable TrackManager.sample_config
    (TrackManager.state_after
       (TrackManager.step TrackManager.sample_config TrackManager.init
                          (TrackManager.sighting 1)))
  /\ In (TrackManager.mkTrack 0 1 1 TrackManager.sample_box 0)
        (TrackManager.live
           (TrackManager.state_after
              (TrackManager.step TrackManager.sample_config TrackManager.init
                                 (TrackManager.sighting 1))))
  /\ Forall (fun f => TrackManager.out_of_sight TrackManager.sample_config
                                                TrackManager.sample_box f = true)
            [TrackManager.blank 2; TrackManager.blank 3; TrackManager.blank 4;
             TrackManager.blank 5; TrackManager.blank 6]
  /\ TrackManager.out_of_sight TrackManager.sample_config
                               TrackManager.sample_box (TrackManager.blank 7)
     = true
  /\ In (TrackManager.mkTrack 0 1 1 TrackManager.sample_box 5)
        (TrackManager.live
           (fst (TrackManager.run TrackManager.sample_config
                   (TrackManager.state_after
                      (TrackManager.step TrackManager.sample_config
                                         TrackManager.init
                                         (TrackManager.sighting 1)))
                   [TrackManager.blank 2; TrackManager.blank 3;
                    TrackManager.blank 4; TrackManager.blank 5;
                    TrackManager.blank 6])))
  /\ In (TrackManager.mkTrack 0 1 1 TrackManager.sample_box 6)
        (TrackManager.terminated
           (TrackManager.step TrackManager.sample_config
              (fst (TrackManager.run TrackManager.sample_config
                      (TrackManager.state_after
                         (TrackManager.step TrackManager.sample_config
                                            TrackManager.init
                                            (TrackManager.sighting 1)))
                      [TrackManager.blank 2; TrackManager.blank 3;
                       TrackManager.blank 4; TrackManager.blank 5;
                       TrackManager.blank 6]))
              (TrackManager.blank 7))).
Proof.
  assert (Hr : TrackManager.reachable TrackManager.sample_config
                 (TrackManager.state_after
                    (TrackManager.step TrackManager.sample_config
                                       TrackManager.init
                                       (TrackManager.sighting 1))))
    by apply TrackManager.reachable_step, TrackManager.reachable_init.
  assert (Hall : Forall (fun f => TrackManager.out_of_sight
                                    TrackManager.sample_config
                                    TrackManager.sample_box f = true)
                        [TrackManager.blank 2; TrackManager.blank 3;
                         TrackManager.blank 4; TrackManager.blank 5;
                         TrackManager.blank 6])
    by (repeat constructor).
  split; [exact Hr|]. split; [left; reflexivity|]. split; [exact Hall|].
  split; [reflexivity|]. split.
  - exact (proj1 (proj1 (proj2 (proj2
             (track_terminates_iff_grace_exceeded TrackManager.sample_config
                _ (TrackManager.mkTrack 0 1 1 TrackManager.sample_box 0)
                Hr (or_introl eq_refl))) _ Hall)
             (le_n 5))).
  - exact (proj1 (proj2 (proj2 (proj2
             (track_terminates_iff_grace_exceeded TrackManager.sample_config
                _ (TrackManager.mkTrack 0 1 1 TrackManager.sample_box 0)
                Hr (or_introl eq_refl))) _ Hall)
             (TrackManager.blank 7) eq_refl eq_refl)).
Defined.

(** * Further properties of the serving layer *)

Section ServerExtras.

Context {T : Type} `{DroneTracker T}.

Variable ws_accept : WebSocket -> Result unit.
Variable ws_send_text : WebSocket -> string -> Result unit.
Variable clock : nat -> string.
Variable imencode : string -> Image -> Result (bool * string).

Ltac unfold_monad :=
  unfold tracker_is_camera_running, tracker_get_today_detection_count,
    tracker_get_latest_frame, tracker_start, tracker_stop, on_tracker,
    websocket_send_text, websocket_accept, websocket_receive_text,
    now_isoformat, get_tracker, set_tracker, get_connections,
    set_connections, emit, lift, try_except, bind, raise, ret,
    with_trace, with_tracker, appended in *.

(** ** Camera control *)

(** X1. Without a tracker every request is refused with HTTP 503,
    whatever the action, and the state is untouched; the action is not even
    validated. *)
Theorem camera_control_without_tracker :
  forall (w : @World T) (action : string),
    tracker w = None ->
    camera_control action w
    = (Raise (HTTPException 503 "Tracker not initialized"), w).
Proof.
  clear ws_accept ws_send_text clock imencode.
  intros w action Ht. unfold camera_control. unfold_monad. now rewrite Ht.
Qed.

(** X2. [stop] on a running camera: [tracker.stop] is called once and
    its boolean decides the answer.  On [true] the route returns the
    stopped status with the count read from the stopped tracker; on [false]
    it raises HTTP 500, the tracker staying as [stop] left it. *)
Theorem camera_control_stop_decided_by_tracker :
  forall (w : @World T) (t : T) (action : string),
    tracker w = Some t ->
    lower action = "stop" ->
    is_camera_running t = true ->
    let t' := snd (stop t) in
    (fst (stop t) = true ->
     camera_control action w
     = (Ok (mkCameraStatus false "Camera stopped successfully"
                           (get_today_detection_count t')),
        with_trace (with_tracker w t')
                   [TrackerCall m_is_camera_running; TrackerCall m_stop;
                    TrackerCall m_get_today_detection_count]))
    /\ (fst (stop t) = false ->
        camera_control action w
        = (Raise (HTTPException 500 "Failed to stop camera"),
           with_trace (with_tracker w t')
                      [TrackerCall m_is_camera_running; TrackerCall m_stop])).
Proof.
  clear ws_accept ws_send_text clock imencode.
  intros w t action Ht Ha Hr t'. subst t'.
  unfold camera_control. destruct w as [tr conns tc k]. unfold_monad. cbn in *.
  subst tr. rewrite Ha. cbn. rewrite Hr. cbn.
  destruct (stop t) as [ok t1]. cbn.
  split; intros ->; cbn; now rewrite <- !app_assoc.
Qed.

(** A complete case analysis of one call, from which the properties
    below are read off. *)
Lemma camera_control_cases (w : @World T) (action : string) :
  let r := camera_control action w in
  (tracker w = None
   /\ r = (Raise (HTTPException 503 "Tracker not initialized"), w))
  \/ (exists t evs st,
         tracker w = Some t
         /\ r = (Ok st, with_trace w evs)
         /\ existsb is_mutating evs = false
         /\ is_running st = String.eqb (lower action) "start"
         /\ is_running st = is_camera_running t
         /\ total_detections_today st = get_today_detection_count t)
  \/ (exists t evs m b t',
         tracker w = Some t
         /\ (m = m_start /\ lower action = "start" /\ (b, t') = start t
             \/ m = m_stop /\ lower action = "stop" /\ (b, t') = stop t)
         /\ ((b = true
              /\ exists st,
                  r = (Ok st, with_trace (with_tracker w t')
                                (evs ++ [TrackerCall m_get_today_detection_count]))
                  /\ is_running st = String.eqb (lower action) "start"
                  /\ total_detections_today st = get_today_detection_count t')
             \/ (b = false
                 /\ exists e, r = (Raise e, with_trace (with_tracker w t') evs)
                              /\ In e camera_control_errors))
         /\ evs = [TrackerCall m_is_camera_running; TrackerCall m])
  \/ (exists t,
         tracker w = Some t
         /\ lower action <> "start" /\ lower action <> "stop"
         /\ r = (Raise (HTTPException 400 "Invalid action. Use 'start' or 'stop'"), w)).
Proof.
  clear ws_accept ws_send_text clock imencode.
  cbv zeta. destruct w as [tr conns tc k]. destruct tr as [t|].
  2:{ left. split; [reflexivity|]. reflexivity. }
  right. unfold camera_control. unfold_monad. cbn.
  destruct (String.eqb (lower action) "start") eqn:Es.
  - apply String.eqb_eq in Es. cbn.
    destruct (is_camera_running t) eqn:Hr; cbn.
    + left. eexists t, _, _. split; [reflexivity|].
      split; [rewrite <- !app_assoc; reflexivity|].
      cbn. rewrite ?Hr. repeat split.
    + right. left. destruct (start t) as [b t'] eqn:Est. cbn.
      exists t, [TrackerCall m_is_camera_running; TrackerCall m_start],
        m_start, b, t'.
      split; [reflexivity|]. split; [left; now rewrite Est|].
      split; [|reflexivity].
      destruct b; cbn; [left|right]; (split; [reflexivity|]).
      * eexists. split; [rewrite <- !app_assoc; reflexivity|].
        cbn. now split.
      * eexists. split; [rewrite <- !app_assoc; reflexivity|].
        cbn. tauto.
  - destruct (String.eqb (lower action) "stop") eqn:Ep.
    + apply String.eqb_eq in Ep. cbn.
      destruct (is_camera_running t) eqn:Hr; cbn.
      * right. left. destruct (stop t) as [b t'] eqn:Est. cbn.
        exists t, [TrackerCall m_is_camera_running; TrackerCall m_stop],
          m_stop, b, t'.
        split; [reflexivity|]. split; [right; now rewrite Est|].
        split; [|reflexivity].
        destruct b; cbn; [left|right]; (split; [reflexivity|]).
        -- eexists. split; [rewrite <- !app_assoc; reflexivity|].
           cbn. now split.
        -- eexists. split; [rewrite <- !app_assoc; reflexivity|].
           cbn. tauto.
      * left. eexists t, _, _. split; [reflexivity|].
        split; [rewrite <- !app_assoc; reflexivity|].
        cbn. rewrite ?Hr. repeat split.
    + right. right. exists t. apply String.eqb_neq in Es, Ep.
      repeat split; assumption.
Qed.

(** X3. Whenever the route answers with a status, the flag in it is
    fixed by the action alone ([true] for start, [false] for stop; it is not
    read back from the tracker), and the count in it is the count of the
    tracker the call leaves behind. *)
Theorem camera_control_status_reflects_action :
  forall (w w' : @World T) (action : string) (st : CameraStatus),
    camera_control action w = (Ok st, w') ->
    is_running st = String.eqb (lower action) "start"
    /\ exists t', tracker w' = Some t'
                  /\ total_detections_today st = get_today_detection_count t'.
Proof.
  clear ws_accept ws_send_text clock imencode.
  intros w w' action st E.
  destruct (camera_control_cases w action)
    as [[_ R]|[(t & evs & st0 & Ht & R & _ & Ha & _ & Hc)
              |[(t & evs & m & b & t' & Ht & _ & Hb & _)|(t & _ & _ & _ & R)]]];
    cbv zeta in *.
  - congruence.
  - rewrite R in E. injection E as <- <-. split; [exact Ha|].
    exists t. split; [exact Ht|exact Hc].
  - destruct Hb as [(_ & st0 & R & Ha & Hc)|(_ & e & R & _)]; [|congruence].
    rewrite R in E. injection E as <- <-. split; [exact Ha|].
    exists t'. split; [reflexivity|exact Hc].
  - congruence.
Qed.

(** X4. The only exceptions the route raises are its four HTTP errors:
    503 exactly when there is no tracker, 400 or 500 otherwise. *)
Theorem camera_control_raises_only_http_errors :
  forall (w w' : @World T) (action : string) (e : Exn),
    camera_control action w = (Raise e, w') ->
    In e camera_control_errors
    /\ (tracker w = None <-> e = HTTPException 503 "Tracker not initialized").
Proof.
  clear ws_accept ws_send_text clock imencode.
  intros w w' action e E.
  destruct (camera_control_cases w action)
    as [[Hn R]|[(t & evs & st0 & Ht & R & _)
               |[(t & evs & m & b & t' & Ht & Hm & Hb & _)
                |(t & Ht & _ & _ & R)]]];
    cbv zeta in *.
  - rewrite R in E. injection E as <- <-. split; [now left|tauto].
  - congruence.
  - destruct Hb as [(_ & st0 & R & _)|(Hf & e0 & R & Hin)]; [congruence|].
    rewrite R in E. injection E as <- <-. split; [exact Hin|].
    split; [congruence|]. intros ->. subst b.
    unfold camera_control, bind, get_tracker, tracker_is_camera_running,
      on_tracker, bind, get_tracker in R.
    destruct w as [tr conns tc k]. cbn in Ht. subst tr. cbn in R.
    destruct Hm as [(-> & Ha & Es)|(-> & Ha & Es)]; rewrite Ha in R; cbn in R;
      unfold emit, bind, set_tracker, ret, raise, tracker_start, tracker_stop,
        on_tracker, bind, get_tracker, emit, set_tracker, ret in R; cbn in R.
    + destruct (is_camera_running t); cbn in R; [discriminate|].
      rewrite <- Es in R. cbn in R. discriminate.
    + destruct (is_camera_running t); cbn in R; [|discriminate].
      rewrite <- Es in R. cbn in R. discriminate.
  - rewrite R in E. injection E as <- <-.
    split; [right; right; right; now left|]. split; [congruence|discriminate].
Qed.

Lemma filter_none {A : Type} (f : A -> bool) (l : list A) :
  (forall a, In a l -> f a = false) -> filter f l = [].
Proof.
  clear ws_accept ws_send_text clock imencode.
  induction l as [|x rest IH]; intros Hf; [reflexivity|]. cbn.
  rewrite (Hf x (or_introl eq_refl)). apply IH. intros a Ha.
  apply Hf. now right.
Qed.

(** X5. One request changes the tracker at most once, and only in the
    direction asked for: [start] is called only for a start action, [stop]
    only for a stop action, never both; the connection list and the clock
    are never touched. *)
Theorem camera_control_mutates_at_most_once :
  forall (w : @World T) (action : string),
    let w' := snd (camera_control action w) in
    active_connections w' = active_connections w
    /\ ticks w' = ticks w
    /\ exists evs,
        appended w w' evs
        /\ (List.length (filter is_mutating evs) <= 1)%nat
        /\ (lower action = "start" \/ ~ In (TrackerCall m_start) evs)
        /\ (lower action = "stop" \/ ~ In (TrackerCall m_stop) evs).
Proof.
  clear ws_accept ws_send_text clock imencode.
  intros w action.
  assert (Hfilter : forall evs,
             existsb is_mutating evs = false -> filter is_mutating evs = []).
  { intros evs Hm. apply filter_none. intros e Hin.
    destruct (is_mutating e) eqn:Em; [|reflexivity].
    assert (existsb is_mutating evs = true)
      by (apply existsb_exists; now exists e).
    congruence. }
  assert (Hquiet : forall evs,
             existsb is_mutating evs = false ->
             (List.length (filter is_mutating evs) <= 1)%nat
             /\ (lower action = "start" \/ ~ In (TrackerCall m_start) evs)
             /\ (lower action = "stop" \/ ~ In (TrackerCall m_stop) evs)).
  { intros evs Hm.
    assert (Hnone : forall e, In e evs -> is_mutating e = false).
    { intros e Hin. destruct (is_mutating e) eqn:Em; [|reflexivity].
      assert (existsb is_mutating evs = true)
        by (apply existsb_exists; now exists e).
      congruence. }
    rewrite (filter_none _ _ Hnone). cbn. split; [lia|].
    split; right; intros Hin; apply Hnone in Hin; discriminate. }
  assert (Hone : forall m tail,
             (m = m_start /\ lower action = "start"
              \/ m = m_stop /\ lower action = "stop") ->
             existsb is_mutating tail = false ->
             let evs := ([TrackerCall m_is_camera_running; TrackerCall m]
                           ++ tail)%list in
             (List.length (filter is_mutating evs) <= 1)%nat
             /\ (lower action = "start" \/ ~ In (TrackerCall m_start) evs)
             /\ (lower action = "stop" \/ ~ In (TrackerCall m_stop) evs)).
  { intros m tail Hm Ht. destruct (Hquiet tail Ht) as (Hl & Hs & Hp).
    pose proof (Hfilter tail Ht) as Hf.
    destruct Hm as [(-> & Ha)|(-> & Ha)]; cbn; rewrite Hf; cbn;
      (split; [lia|]).
    - split; [now left|]. destruct Hp as [Hp|Hp]; [now left|right].
      intros [F|[F|F]]; try discriminate. contradiction.
    - split; [|now left]. destruct Hs as [Hs|Hs]; [now left|right].
      intros [F|[F|F]]; try discriminate. contradiction. }
  destruct (camera_control_cases w action)
    as [[_ R]|[(t & evs & st0 & Ht & R & Hm & _)
              |[(t & evs & m & b & t' & Ht & Hm & Hb & ->)
               |(t & _ & _ & _ & R)]]];
    cbv zeta in *.
  - rewrite R. cbn. split; [reflexivity|]. split; [reflexivity|].
    exists []. split; [unfold appended; now rewrite app_nil_r|].
    now apply Hquiet.
  - rewrite R. cbn. split; [reflexivity|]. split; [reflexivity|].
    exists evs. split; [reflexivity|]. now apply Hquiet.
  - assert (Hm' : m = m_start /\ lower action = "start"
                  \/ m = m_stop /\ lower action = "stop") by tauto.
    destruct Hb as [(_ & st0 & R & _)|(_ & e & R & _)]; rewrite R; cbn;
      (split; [reflexivity|]); (split; [reflexivity|]).
    + eexists. split; [reflexivity|].
      now apply (Hone m [TrackerCall m_get_today_detection_count] Hm').
    + eexists. split; [reflexivity|].
      pose proof (Hone m [] Hm' eq_refl) as Hx. cbv zeta in Hx.
      now rewrite app_nil_r in Hx.
  - rewrite R. cbn. split; [reflexivity|]. split; [reflexivity|].
    exists []. split; [unfold appended; now rewrite app_nil_r|].
    now apply Hquiet.
Qed.

(** ** Connection manager *)

Lemma disconnect_run (ws : WebSocket) (w : @World T) :
  disconnect ws w
  = (Ok tt, mkWorld (tracker w) (without ws (active_connections w))
                    (trace w) (ticks w)).
Proof.
  clear ws_accept ws_send_text clock imencode.
  unfold disconnect, without, bind, get_connections, set_connections, ret.
  destruct w as [tr conns tc k]. cbn. unfold list_contains.
  destruct (existsb (Nat.eqb ws) conns); reflexivity.
Qed.

Lemma list_contains_iff (x : WebSocket) (l : list WebSocket) :
  list_contains x l = true <-> In x l.
Proof.
  clear ws_accept ws_send_text clock imencode.
  unfold list_contains. rewrite existsb_exists. split.
  - intros (y & Hy & E). apply Nat.eqb_eq in E. now subst.
  - intros Hx. exists x. split; [assumption|apply Nat.eqb_refl].
Qed.

Lemma without_absent (ws : WebSocket) (l : list WebSocket) :
  ~ In ws l -> without ws l = l.
Proof.
  clear ws_accept ws_send_text clock imencode.
  intros Hn. unfold without.
  destruct (list_contains ws l) eqn:E; [|reflexivity].
  apply list_contains_iff in E. contradiction.
Qed.

Lemma list_remove_absent (ws : WebSocket) (l : list WebSocket) :
  ~ In ws l -> list_remove ws l = l.
Proof.
  clear ws_accept ws_send_text clock imencode.
  induction l as [|x rest IH]; intros Hn; [reflexivity|]. cbn.
  destruct (Nat.eqb ws x) eqn:E.
  - apply Nat.eqb_eq in E. subst. exfalso. apply Hn. now left.
  - f_equal. apply IH. intros F. apply Hn. now right.
Qed.

Lemma list_remove_count (ws c : WebSocket) (l : list WebSocket) :
  count_occ Nat.eq_dec (list_remove ws l) c
  = if Nat.eqb c ws then Nat.pred (count_occ Nat.eq_dec l ws)
    else count_occ Nat.eq_dec l c.
Proof.
  clear ws_accept ws_send_text clock imencode.
  induction l as [|x rest IH]; cbn.
  - now destruct (Nat.eqb c ws).
  - destruct (Nat.eqb ws x) eqn:E.
    + apply Nat.eqb_eq in E. subst x.
      destruct (Nat.eq_dec ws ws) as [_|F]; [|contradiction]. cbn.
      destruct (Nat.eqb c ws) eqn:Ec.
      * apply Nat.eqb_eq in Ec. now subst.
      * apply Nat.eqb_neq in Ec.
        destruct (Nat.eq_dec ws c) as [F|_]; [congruence|reflexivity].
    + apply Nat.eqb_neq in E. cbn. rewrite IH.
      destruct (Nat.eq_dec x ws) as [F|_]; [congruence|].
      destruct (Nat.eqb c ws) eqn:Ec.
      * apply Nat.eqb_eq in Ec. subst c.
        destruct (Nat.eq_dec x ws) as [F|_]; [congruence|reflexivity].
      * reflexivity.
Qed.

Lemma list_remove_subset (ws c : WebSocket) (l : list WebSocket) :
  In c (list_remove ws l) -> In c l.
Proof.
  clear ws_accept ws_send_text clock imencode.
  induction l as [|x rest IH]; cbn; [tauto|].
  destruct (Nat.eqb ws x); cbn; [tauto|]. intros [->|Hin]; [now left|].
  right. now apply IH.
Qed.

Lemma list_remove_NoDup (ws : WebSocket) (l : list WebSocket) :
  NoDup l -> NoDup (list_remove ws l) /\ ~ In ws (list_remove ws l).
Proof.
  clear ws_accept ws_send_text clock imencode.
  induction l as [|x rest IH]; intros Hnd; cbn.
  - split; [constructor|tauto].
  - inversion Hnd as [|? ? Hx Hrest]; subst.
    destruct (Nat.eqb ws x) eqn:E.
    + apply Nat.eqb_eq in E. subst x. now split.
    + apply Nat.eqb_neq in E. destruct (IH Hrest) as [IH1 IH2]. split.
      * constructor; [|assumption]. intros F. apply Hx.
        now apply (list_remove_subset ws).
      * intros [F|F]; [congruence|contradiction].
Qed.

Lemma without_fresh (ws : WebSocket) (l : list WebSocket) :
  ~ In ws l -> without ws (l ++ [ws]) = l.
Proof.
  clear ws_accept ws_send_text clock imencode.
  intros Hn. unfold without.
  assert (E : list_contains ws (l ++ [ws]) = true).
  { apply list_contains_iff, in_or_app. right. now left. }
  rewrite E. clear E.
  induction l as [|x rest IH]; cbn.
  - now rewrite Nat.eqb_refl.
  - destruct (Nat.eqb ws x) eqn:E.
    + apply Nat.eqb_eq in E. subst. exfalso. apply Hn. now left.
    + f_equal. apply IH. intros F. apply Hn. now right.
Qed.

(** X6. [disconnect] never raises and touches nothing but the
    connection list, from which it takes one occurrence of the socket and
    no other; on a socket that is not in the list it changes nothing. *)
Theorem disconnect_removes_one_occurrence :
  forall (ws : WebSocket) (w : @World T),
    let w' := snd (disconnect ws w) in
    fst (disconnect ws w) = Ok tt
    /\ tracker w' = tracker w /\ trace w' = trace w /\ ticks w' = ticks w
    /\ (forall c, count_occ Nat.eq_dec (active_connections w') c
                  = if Nat.eqb c ws
                    then Nat.pred (count_occ Nat.eq_dec (active_connections w) ws)
                    else count_occ Nat.eq_dec (active_connections w) c)
    /\ (~ In ws (active_connections w) -> disconnect ws w = (Ok tt, w)).
Proof.
  clear ws_accept ws_send_text clock imencode.
  intros ws w. cbv zeta. rewrite disconnect_run. cbn.
  repeat (split; [reflexivity|]). split.
  - intros c. unfold without.
    destruct (list_contains ws (active_connections w)) eqn:E.
    + apply list_remove_count.
    + destruct (Nat.eqb c ws) eqn:Ec; [|reflexivity].
      apply Nat.eqb_eq in Ec. subst c.
      assert (Hn : ~ In ws (active_connections w)).
      { intros F. apply list_contains_iff in F. congruence. }
      apply (count_occ_not_In Nat.eq_dec) in Hn. now rewrite Hn.
  - intros Hn. rewrite (without_absent _ _ Hn). now destruct w.
Qed.

(** X7. With no duplicates in the list a second [disconnect] of the same
    socket changes nothing: the operation is idempotent. *)
Theorem disconnect_idempotent :
  forall (ws : WebSocket) (w : @World T),
    NoDup (active_connections w) ->
    bind (disconnect ws) (fun _ => disconnect ws) w = disconnect ws w.
Proof.
  clear ws_accept ws_send_text clock imencode.
  intros ws w Hnd. unfold bind. rewrite !disconnect_run. cbn.
  f_equal. f_equal. apply without_absent. unfold without.
  destruct (list_contains ws (active_connections w)) eqn:E.
  - now apply list_remove_NoDup.
  - intros F. apply list_contains_iff in F. congruence.
Qed.

(** X8. Connecting a socket that is not yet in the list and then
    disconnecting it gives back the connection list as it was; only the
    handshake remains on the trace. *)
Theorem connect_then_disconnect :
  forall (ws : WebSocket) (w : @World T),
    ws_accept ws = Ok tt ->
    ~ In ws (active_connections w) ->
    bind (connect ws_accept ws) (fun _ => disconnect ws) w
    = (Ok tt, with_trace w [WsAccept ws]).
Proof.
  clear ws_send_text clock imencode.
  intros ws w Hacc Hn. unfold bind, connect, bind, websocket_accept, bind,
    emit, lift, get_connections, set_connections.
  rewrite Hacc. rewrite disconnect_run. cbn.
  now rewrite (without_fresh _ _ Hn).
Qed.

Lemma broadcast_run (message : string) (w : @World T) :
  broadcast ws_send_text message w
  = (Ok tt,
     mkWorld (tracker w)
             (filter (send_succeeds ws_send_text message) (active_connections w))
             (trace w ++ map (fun c => WsSend c message)
                             (active_connections w))%list
             (ticks w)).
Proof.
  clear ws_accept clock imencode.
  unfold broadcast, bind, get_connections at 1.
  destruct (active_connections w) as [|c rest] eqn:El.
  - destruct w; cbn in *. subst. unfold ret. now rewrite app_nil_r.
  - rewrite broadcast_send_spec, broadcast_drop_spec. cbn [app].
    unfold with_trace. cbn [tracker active_connections trace ticks].
    rewrite El, drop_all_failed. f_equal. f_equal.
    apply filter_ext. intros a. unfold send_fails.
    now rewrite negb_involutive.
Qed.

(** X9. The connection list stays free of duplicates: [disconnect] and
    [broadcast] keep it so, and so does [connect] of a socket that is not
    in it. *)
Theorem connections_stay_distinct :
  forall (ws : WebSocket) (message : string) (w : @World T),
    NoDup (active_connections w) ->
    NoDup (active_connections (snd (disconnect ws w)))
    /\ NoDup (active_connections (snd (broadcast ws_send_text message w)))
    /\ (~ In ws (active_connections w) ->
        NoDup (active_connections (snd (connect ws_accept ws w)))).
Proof.
  clear clock imencode.
  intros ws message w Hnd. split; [|split].
  - rewrite disconnect_run. cbn. unfold without.
    destruct (list_contains ws (active_connections w)); [|assumption].
    now apply list_remove_NoDup.
  - rewrite broadcast_run. cbn. now apply NoDup_filter.
  - intros Hn. unfold connect, bind, websocket_accept, bind, emit, lift,
      get_connections, set_connections.
    destruct (ws_accept ws) as [[]|e]; cbn; [|assumption].
    apply NoDup_app; [assumption|repeat constructor; tauto|].
    intros a Ha [<-|[]]. contradiction.
Qed.

(** X10. A socket that [broadcast] has dropped can still be
    disconnected by its own handler: the socket is gone from the list, and
    the later [disconnect] returns normally and changes nothing. *)
Theorem disconnect_after_broadcast_drop :
  forall (ws : WebSocket) (message : string) (e : Exn) (w : @World T),
    ws_send_text ws message = Raise e ->
    let w' := snd (broadcast ws_send_text message w) in
    ~ In ws (active_connections w')
    /\ disconnect ws w' = (Ok tt, w').
Proof.
  clear ws_accept clock imencode.
  intros ws message e w Hs. cbv zeta. rewrite broadcast_run.
  cbn [snd active_connections].
  assert (Hn : ~ In ws (filter (send_succeeds ws_send_text message)
                               (active_connections w))).
  { rewrite filter_In. unfold send_succeeds. rewrite Hs. intros [_ F].
    discriminate. }
  split; [exact Hn|]. rewrite disconnect_run. cbn.
  now rewrite (without_absent _ _ Hn).
Qed.

(** ** WebSocket endpoint *)

Lemma websocket_endpoint_unfold (ws : WebSocket) (incoming : list (Result string)) :
  @websocket_endpoint T _ ws_accept ws_send_text clock ws incoming
  = bind (connect ws_accept ws)
         (fun _ =>
            try_except
              (websocket_session ws_send_text clock ws incoming)
              (fun e =>
                 if is_WebSocketDisconnect e
                 then bind (disconnect ws) (fun _ => ret Returned)
                 else bind (disconnect ws) (fun _ => ret Returned))).
Proof. reflexivity. Qed.

Lemma websocket_handler_run (ws : WebSocket) (e : Exn) (w : @World T) :
  (if is_WebSocketDisconnect e
   then bind (disconnect ws) (fun _ => ret Returned)
   else bind (disconnect ws) (fun _ => ret Returned)) w
  = (Ok Returned, mkWorld (tracker w) (without ws (active_connections w))
                          (trace w) (ticks w)).
Proof.
  clear ws_accept ws_send_text clock imencode.
  destruct (is_WebSocketDisconnect e); unfold bind; rewrite disconnect_run;
    reflexivity.
Qed.

Lemma receive_loop_frame (ws : WebSocket) :
  forall (incoming : list (Result string)) (w : @World T),
    let r := receive_loop ws_send_text clock ws incoming w in
    tracker (snd r) = tracker w
    /\ active_connections (snd r) = active_connections w
    /\ fst r <> Ok Returned.
Proof.
  clear ws_accept imencode.
  induction incoming as [|r rest IH]; intros w; cbv zeta.
  - cbn. repeat split. discriminate.
  - cbn [receive_loop]. unfold_monad. destruct r as [data|e]; cbn.
    + destruct (String.eqb data "ping"); cbn.
      * destruct (ws_send_text ws _) as [[]|e]; cbn.
        -- match goal with
           | |- context [receive_loop _ _ ws rest ?w0] =>
               destruct (IH w0) as (I1 & I2 & I3)
           end.
           rewrite I1, I2. repeat split. exact I3.
        -- repeat split. discriminate.
      * match goal with
        | |- context [receive_loop _ _ ws rest ?w0] =>
            destruct (IH w0) as (I1 & I2 & I3)
        end.
        rewrite I1, I2. repeat split. exact I3.
    + repeat split. discriminate.
Qed.

Lemma websocket_session_frame (ws : WebSocket) (incoming : list (Result string))
      (w : @World T) :
  let r := websocket_session ws_send_text clock ws incoming w in
  tracker (snd r) = tracker w
  /\ active_connections (snd r) = active_connections w
  /\ fst r <> Ok Returned.
Proof.
  clear ws_accept imencode.
  cbv zeta. unfold websocket_session. destruct w as [tr conns tc k].
  unfold_monad. cbn. destruct tr as [t|]; cbn.
  - destruct (ws_send_text ws _) as [[]|e]; cbn.
    + match goal with
      | |- context [receive_loop _ _ ws incoming ?w0] =>
          destruct (receive_loop_frame ws incoming w0) as (I1 & I2 & I3)
      end.
      rewrite I1, I2. repeat split. exact I3.
    + repeat split. discriminate.
  - match goal with
    | |- context [receive_loop _ _ ws incoming ?w0] =>
        destruct (receive_loop_frame ws incoming w0) as (I1 & I2 & I3)
    end.
    rewrite I1, I2. repeat split. exact I3.
Qed.

Lemma websocket_endpoint_accepted (ws : WebSocket)
      (incoming : list (Result string)) (w : @World T) :
  ws_accept ws = Ok tt ->
  websocket_endpoint ws_accept ws_send_text clock ws incoming w
  = match websocket_session ws_send_text clock ws incoming
            (mkWorld (tracker w) (active_connections w ++ [ws])%list
                     (trace w ++ [WsAccept ws])%list (ticks w)) with
    | (Ok st, w2) => (Ok st, w2)
    | (Raise e, w2) =>
        (Ok Returned, mkWorld (tracker w2) (without ws (active_connections w2))
                              (trace w2) (ticks w2))
    end.
Proof.
  clear imencode.
  intros Hacc. rewrite websocket_endpoint_unfold.
  unfold bind at 1. rewrite (connect_accepted _ _ _ Hacc).
  unfold try_except.
  destruct (websocket_session ws_send_text clock ws incoming _)
    as [[st|e] w2]; [reflexivity|].
  apply websocket_handler_run.
Qed.

(** X11. When the handshake is refused the endpoint raises what
    [accept] raised; the socket never enters the connection list and
    nothing is sent to it. *)
Theorem websocket_endpoint_handshake_refused :
  forall (ws : WebSocket) (incoming : list (Result string)) (e : Exn)
         (w : @World T),
    ws_accept ws = Raise e ->
    websocket_endpoint ws_accept ws_send_text clock ws incoming w
    = (Raise e, with_trace w [WsAccept ws]).
Proof.
  clear imencode.
  intros ws incoming e w Hacc. rewrite websocket_endpoint_unfold.
  unfold bind at 1. unfold connect, bind, websocket_accept, bind, emit, lift.
  now rewrite Hacc.
Qed.

(** X12. An accepted socket is in the connection list exactly as long as
    its handler is waiting on it: while the handler awaits the next message
    the socket is the last entry of the list, and once the handler has
    returned the list is what it was before the connection.  The handler
    itself never raises and never changes the tracker. *)
Theorem websocket_endpoint_lifecycle :
  forall (ws : WebSocket) (incoming : list (Result string)) (w : @World T),
    ws_accept ws = Ok tt ->
    ~ In ws (active_connections w) ->
    let r := websocket_endpoint ws_accept ws_send_text clock ws incoming w in
    tracker (snd r) = tracker w
    /\ ((fst r = Ok Awaiting
         /\ active_connections (snd r) = (active_connections w ++ [ws])%list)
        \/ (fst r = Ok Returned
            /\ active_connections (snd r) = active_connections w)).
Proof.
  clear imencode.
  intros ws incoming w Hacc Hn. cbv zeta.
  rewrite (websocket_endpoint_accepted _ _ _ Hacc).
  match goal with
  | |- context [websocket_session _ _ ws incoming ?w0] =>
      destruct (websocket_session_frame ws incoming w0) as (I1 & I2 & I3);
      destruct (websocket_session ws_send_text clock ws incoming w0)
        as [[st|e] w2]
  end; cbn in I1, I2, I3; cbn.
  - split; [exact I1|]. left. destruct st; [|congruence]. now split.
  - split; [exact I1|]. right.
    split; [reflexivity|]. rewrite I2. now apply without_fresh.
Qed.

Lemma receive_loop_raises (ws : WebSocket) :
  forall (incoming : list (Result string)) (w : @World T),
    Exists (fun r => is_Raise r = true) incoming ->
    exists e, fst (receive_loop ws_send_text clock ws incoming w) = Raise e.
Proof.
  clear ws_accept imencode.
  induction incoming as [|r rest IH]; intros w Hex.
  - inversion Hex.
  - cbn [receive_loop]. unfold_monad. destruct r as [data|e]; cbn.
    + assert (Hrest : Exists (fun r => is_Raise r = true) rest)
        by (inversion Hex; subst; [discriminate|assumption]).
      destruct (String.eqb data "ping"); cbn.
      * destruct (ws_send_text ws _) as [[]|e]; cbn; [|now exists e].
        now apply IH.
      * now apply IH.
    + now exists e.
Qed.

(** X13. Once the peer's stream of messages breaks (a disconnect or any
    other failure of [receive_text]) the handler returns; it does not stay
    waiting and does not raise. *)
Theorem websocket_endpoint_returns_on_failure :
  forall (ws : WebSocket) (incoming : list (Result string)) (w : @World T),
    ws_accept ws = Ok tt ->
    Exists (fun r => is_Raise r = true) incoming ->
    fst (websocket_endpoint ws_accept ws_send_text clock ws incoming w)
    = Ok Returned.
Proof.
  clear imencode.
  intros ws incoming w Hacc Hex.
  rewrite (websocket_endpoint_accepted _ _ _ Hacc).
  match goal with
  | |- context [websocket_session _ _ ws incoming ?w0] =>
      assert (Hr : exists e,
                 fst (websocket_session ws_send_text clock ws incoming w0)
                 = Raise e)
  end.
  { unfold websocket_session. destruct w as [tr conns tc k].
    unfold_monad. cbn. destruct tr as [t|]; cbn.
    - destruct (ws_send_text ws _) as [[]|e]; cbn; [|now exists e].
      now apply receive_loop_raises.
    - now apply receive_loop_raises. }
  destruct Hr as [e He].
  match goal with
  | |- context [websocket_session _ _ ws incoming ?w0] =>
      destruct (websocket_session ws_send_text clock ws incoming w0)
        as [[st|e'] w2]
  end; cbn in He; [discriminate|reflexivity].
Qed.

Lemma receive_loop_quiet (ws : WebSocket) :
  (forall text, ws_send_text ws text = Ok tt) ->
  forall (texts : list string) (w : @World T),
    exists evs,
      receive_loop ws_send_text clock ws (map Ok texts) w
      = (Ok Awaiting,
         mkWorld (tracker w) (active_connections w) (trace w ++ evs)%list
                 (ticks w + count_occ string_dec texts "ping")%nat)
      /\ List.length (filter is_ws_send evs) = count_occ string_dec texts "ping"
      /\ List.length (filter is_ws_receive evs) = List.length texts.
Proof.
  clear ws_accept imencode.
  intros Hsend. induction texts as [|data rest IH]; intros w.
  - exists []. cbn. unfold ret. destruct w; cbn.
    rewrite app_nil_r, Nat.add_0_r. repeat split.
  - cbn [map receive_loop count_occ]. unfold_monad. cbn.
    destruct (String.eqb_spec data "ping") as [->|Hne].
    + destruct (string_dec "ping" "ping") as [_|F]; [|contradiction].
      cbn. rewrite Hsend. cbn.
      match goal with
      | |- context [receive_loop _ _ ws (map Ok rest) ?w0] =>
          destruct (IH w0) as (evs & E & Hs & Hr)
      end.
      rewrite E. cbn.
      exists (WsReceive ws
                :: WsSend ws (json_dumps (pong_message (clock (ticks w))))
                :: evs).
      split; [|split].
      * f_equal. f_equal; [now rewrite <- !app_assoc|lia].
      * cbn. now rewrite Hs.
      * cbn. now rewrite Hr.
    + destruct (string_dec data "ping") as [F|_]; [contradiction|].
      cbn.
      match goal with
      | |- context [receive_loop _ _ ws (map Ok rest) ?w0] =>
          destruct (IH w0) as (evs & E & Hs & Hr)
      end.
      rewrite E. cbn. exists (WsReceive ws :: evs).
      split; [|split].
      * f_equal. f_equal. now rewrite <- !app_assoc.
      * cbn. exact Hs.
      * cbn. now rewrite Hr.
Qed.

(** X14. With a peer that stays connected, every message is read and
    every [ping] - and nothing else - is answered: besides the initial
    status (sent only when a tracker is in place) the endpoint sends exactly
    one reply per ping, takes one clock reading per message it sends, and
    is left waiting for more. *)
Theorem websocket_pings_answered :
  forall (ws : WebSocket) (texts : list string) (w : @World T),
    ws_accept ws = Ok tt ->
    (forall text, ws_send_text ws text = Ok tt) ->
    let r := websocket_endpoint ws_accept ws_send_text clock ws
                                (map Ok texts) w in
    let sent := ((if is_not_None (tracker w) then 1 else 0)
                 + count_occ string_dec texts "ping")%nat in
    fst r = Ok Awaiting
    /\ ticks (snd r) = (ticks w + sent)%nat
    /\ exists evs,
        appended w (snd r) evs
        /\ List.length (filter is_ws_send evs) = sent
        /\ List.length (filter is_ws_receive evs) = List.length texts.
Proof.
  clear imencode.
  intros ws texts w Hacc Hsend. cbv zeta.
  rewrite (websocket_endpoint_accepted _ _ _ Hacc).
  unfold websocket_session. destruct w as [tr conns tc k].
  unfold_monad. cbn. destruct tr as [t|]; cbn.
  - rewrite Hsend. cbn.
    match goal with
    | |- context [receive_loop _ _ ws (map Ok texts) ?w0] =>
        destruct (receive_loop_quiet ws Hsend texts w0) as (evs & E & Hs & Hr)
    end.
    rewrite E. cbn. split; [reflexivity|]. split; [lia|].
    eexists. split; [rewrite <- !app_assoc; cbn; reflexivity|].
    cbn. split; [now rewrite Hs|exact Hr].
  - match goal with
    | |- context [receive_loop _ _ ws (map Ok texts) ?w0] =>
        destruct (receive_loop_quiet ws Hsend texts w0) as (evs & E & Hs & Hr)
    end.
    rewrite E. cbn. split; [reflexivity|]. split; [reflexivity|].
    eexists. split; [rewrite <- !app_assoc; cbn; reflexivity|].
    cbn. split; [exact Hs|exact Hr].
Qed.

(** X15. Without a tracker the endpoint still accepts the connection
    and serves pings, but sends no status message: after the handshake
    everything it does on the socket is a read or the reply to a ping. *)
Theorem websocket_no_status_without_tracker :
  forall (ws : WebSocket) (incoming : list (Result string)) (w : @World T),
    tracker w = None ->
    ws_accept ws = Ok tt ->
    exists rest,
      appended w (snd (websocket_endpoint ws_accept ws_send_text clock ws
                                          incoming w))
               ([WsAccept ws] ++ rest)
      /\ Forall (loop_event ws) rest.
Proof.
  clear imencode.
  intros ws incoming w Ht Hacc.
  rewrite (websocket_endpoint_accepted _ _ _ Hacc).
  unfold websocket_session. destruct w as [tr conns tc k]. cbn in Ht. subst tr.
  unfold_monad. cbn.
  match goal with
  | |- context [receive_loop _ _ ws incoming ?w0] =>
      destruct (receive_loop_extends ws_send_text clock ws incoming w0)
        as (evs & Hev & Fev);
      destruct (receive_loop ws_send_text clock ws incoming w0)
        as [[st|e] w2]
  end; unfold appended in Hev; cbn in Hev; cbn; exists evs;
    (split; [rewrite Hev; now rewrite <- !app_assoc|exact Fev]).
Qed.

(** ** Frame generator *)

Lemma generate_frames_iteration_run (w : @World T) (t : T) :
  tracker w = Some t ->
  generate_frames_iteration imencode w
  = match imencode ".jpg" (served_image t) with
    | Ok _ => (Ok tt, with_trace w (frame_reads t
                                      ++ yielded imencode (served_image t))%list)
    | Raise e => (Raise e, with_trace w (frame_reads t))
    end.
Proof.
  clear ws_accept ws_send_text clock.
  intros Ht. destruct w as [tr conns tc k]. cbn in Ht. subst tr.
  unfold generate_frames_iteration, encode_and_yield, frame_reads, yielded,
    served_image.
  unfold_monad. cbn.
  destruct (is_camera_running t); cbn.
  - destruct (get_latest_frame t) as [frame|]; cbn.
    + destruct (imencode ".jpg" frame) as [[[] buffer]|e]; cbn;
        rewrite <- ?app_assoc; reflexivity.
    + destruct (imencode ".jpg" no_camera_feed_frame) as [[[] buffer]|e]; cbn;
        rewrite <- ?app_assoc; reflexivity.
  - destruct (imencode ".jpg" camera_stopped_frame) as [[[] buffer]|e]; cbn;
      rewrite <- ?app_assoc; reflexivity.
Qed.

(** X16. While the camera runs and the tracker has a frame, an
    iteration yields that frame - the tracker's own, not a placeholder -
    encoded and wrapped as one multipart chunk. *)
Theorem generate_frames_serves_latest_frame :
  forall (w : @World T) (t : T) (frame : Image) (buffer : string),
    tracker w = Some t ->
    is_camera_running t = true ->
    get_latest_frame t = Some frame ->
    imencode ".jpg" frame = Ok (true, buffer) ->
    generate_frames_iteration imencode w
    = (Ok tt, with_trace w [TrackerCall m_is_camera_running;
                            TrackerCall m_get_latest_frame;
                            Yield (multipart buffer)]).
Proof.
  clear ws_accept ws_send_text clock.
  intros w t frame buffer Ht Hr Hf Henc.
  rewrite (generate_frames_iteration_run _ _ Ht).
  unfold frame_reads, yielded, served_image. now rewrite Hr, Hf, Henc.
Qed.

(** X17. When the encoder rejects the image of an iteration, be it a
    captured frame or a placeholder, that iteration yields nothing; the
    generator neither raises nor stops but goes on to the next
    iteration. *)
Theorem generate_frames_skips_unencodable :
  forall (w : @World T) (t : T) (buffer : string),
    tracker w = Some t ->
    imencode ".jpg" (served_image t) = Ok (false, buffer) ->
    generate_frames_iteration imencode w = (Ok tt, with_trace w (frame_reads t))
    /\ forall n, generate_frames imencode (S n) w
                 = generate_frames imencode n (with_trace w (frame_reads t)).
Proof.
  clear ws_accept ws_send_text clock.
  intros w t buffer Ht Henc.
  assert (E : generate_frames_iteration imencode w
              = (Ok tt, with_trace w (frame_reads t))).
  { rewrite (generate_frames_iteration_run _ _ Ht). unfold yielded.
    now rewrite Henc, app_nil_r. }
  split; [exact E|]. intros n. cbn [generate_frames].
  unfold bind, try_except, ret. now rewrite E.
Qed.

(** X18. Without a tracker the first iteration fails on the missing
    tracker and the generator ends the stream: it yields the "Stream
    Error" frame (if the encoder accepts it) and is exhausted, however many
    iterations were asked for and without any tracker call.  Only an
    exception of the encoder on that last frame leaves the generator. *)
Theorem generate_frames_without_tracker_ends :
  forall (w : @World T) (n : nat),
    tracker w = None ->
    generate_frames imencode (S n) w
    = match imencode ".jpg" stream_error_frame with
      | Ok _ =>
          (Ok Exhausted, with_trace w (yielded imencode stream_error_frame))
      | Raise e => (Raise e, w)
      end.
Proof.
  clear ws_accept ws_send_text clock.
  intros w n Ht. destruct w as [tr conns tc k]. cbn in Ht. subst tr.
  cbn [generate_frames]. unfold generate_frames_iteration, encode_and_yield,
    yielded.
  unfold_monad. cbn.
  destruct (imencode ".jpg" stream_error_frame) as [[[] buffer]|e]; cbn;
    [reflexivity|now rewrite app_nil_r|reflexivity].
Qed.




(** ** Health check *)

(** X20. With a tracker in place the health check reports it as
    initialized together with its running flag; it reads that flag and the
    clock once each, and changes neither the tracker nor the connection
    list. *)
Theorem health_check_with_tracker :
  forall (w : @World T) (t : T),
    tracker w = Some t ->
    health_check clock w
    = (Ok [("status", JString "healthy");
           ("tracker_initialized", JBool true);
           ("camera_running", JBool (is_camera_running t));
           ("timestamp", JString (clock (ticks w)))],
       mkWorld (Some t) (active_connections w)
               (trace w ++ [TrackerCall m_is_camera_running])%list
               (S (ticks w))).
Proof.
  clear ws_accept ws_send_text imencode.
  intros [tr conns tc k] t Ht. cbn in Ht. subst tr.
  unfold health_check. unfold_monad. reflexivity.
Qed.

(** ** Lifespan *)

(** X21. Shutdown never raises, whatever [stop] answers.  It calls
    [tracker.stop] exactly when a tracker is in place and reports running;
    a missing or stopped tracker is left as it is. *)
Theorem lifespan_shutdown_stops_running_tracker :
  forall (w : @World T),
    let r := lifespan_shutdown w in
    fst r = Ok tt
    /\ match tracker w with
       | None => snd r = w
       | Some t =>
           if is_camera_running t
           then snd r = with_trace (with_tracker w (snd (stop t)))
                                   [TrackerCall m_is_camera_running;
                                    TrackerCall m_stop]
           else snd r = with_trace w [TrackerCall m_is_camera_running]
       end.
Proof.
  clear ws_accept ws_send_text clock imencode.
  intros [tr conns tc k]. cbv zeta. unfold lifespan_shutdown. unfold_monad.
  cbn. destruct tr as [t|]; cbn; [|now split].
  destruct (is_camera_running t); cbn.
  - destruct (stop t) as [b t']. cbn. split; [reflexivity|].
    now rewrite <- !app_assoc.
  - now split.
Qed.

(** X22. If the tables can be created, startup always completes: the
    connection list starts empty, and the tracker is set only when the
    model file exists and both the constructor and [set_callbacks] went
    through; in every other case the global is left at [None].  If the
    tables cannot be created, startup raises and changes nothing. *)
Theorem lifespan_startup_outcome :
  forall (create_all : Result unit) (model_exists : bool)
         (construct : Result T) (set_callbacks : T -> Result T)
         (w : @World T),
    (create_all = Ok tt ->
     lifespan_startup create_all model_exists construct set_callbacks w
     = (Ok tt, mkWorld (started_tracker model_exists construct set_callbacks)
                       [] (trace w) (ticks w)))
    /\ (forall e, create_all = Raise e ->
                  lifespan_startup create_all model_exists construct
                                   set_callbacks w
                  = (Raise e, w)).
Proof.
  clear ws_accept ws_send_text clock imencode.
  intros create_all model_exists construct set_callbacks [tr conns tc k].
  unfold lifespan_startup, started_tracker. unfold_monad. split.
  - intros ->. cbn. destruct model_exists; cbn; [|reflexivity].
    destruct construct as [t|e]; cbn; [|reflexivity].
    destruct (set_callbacks t) as [t'|e]; reflexivity.
  - intros e ->. reflexivity.
Qed.

(** X23. A failed tracker initialisation does not stop the service but
    disables camera control: if the model file is missing, or the
    constructor or [set_callbacks] raised, every camera control request
    after startup is answered with HTTP 503. *)
Theorem camera_control_after_failed_startup :
  forall (model_exists : bool) (construct : Result T)
         (set_callbacks : T -> Result T) (action : string) (w : @World T),
    started_tracker model_exists construct set_callbacks = None ->
    bind (lifespan_startup (Ok tt) model_exists construct set_callbacks)
         (fun _ => camera_control action) w
    = (Raise (HTTPException 503 "Tracker not initialized"),
       mkWorld None [] (trace w) (ticks w)).
Proof.
  clear ws_accept ws_send_text clock imencode.
  intros model_exists construct set_callbacks action [tr conns tc k] Hnone.
  unfold lifespan_startup, started_tracker, camera_control in *.
  unfold_monad. cbn.
  destruct model_exists; cbn; [|reflexivity].
  destruct construct as [t|e]; cbn; [|reflexivity].
  destruct (set_callbacks t) as [t'|e]; cbn; [discriminate|reflexivity].
Qed.

End ServerExtras.

(** * Concrete runs of the further properties *)

Lemma camera_control_without_tracker_witness :
  tracker world_without_tracker = None
  /\ camera_control "start" world_without_tracker
     = (Raise (HTTPException 503 "Tracker not initialized"),
        world_without_tracker).
Proof.
  split; [reflexivity|].
  exact (camera_control_without_tracker world_without_tracker "start" eq_refl).
Defined.

Lemma camera_control_stop_decided_by_tracker_witness :
  (fst (stop running_engine) = true
   /\ fst (camera_control "STOP" (world_of running_engine []))
      = Ok (mkCameraStatus false "Camera stopped successfully" 3))
  /\ (fst (@stop bool jammed_tracker true) = false
      /\ fst (@camera_control bool jammed_tracker "stop"
                              (mkWorld (Some true) [] [] 0))
         = Raise (HTTPException 500 "Failed to stop camera")).
Proof.
  split; (split; [reflexivity|]).
  - exact (f_equal fst
             (proj1 (camera_control_stop_decided_by_tracker
                       (world_of running_engine []) running_engine "STOP"
                       eq_refl eq_refl eq_refl) eq_refl)).
  - exact (f_equal fst
             (proj2 (@camera_control_stop_decided_by_tracker bool
                       jammed_tracker (mkWorld (Some true) [] [] 0) true "stop"
                       eq_refl eq_refl eq_refl) eq_refl)).
Defined.

Lemma camera_control_status_reflects_action_witness :
  camera_control "start" (world_of stopped_engine [])
  = (Ok (mkCameraStatus true "Camera started successfully" 3),
     snd (camera_control "start" (world_of stopped_engine [])))
  /\ is_running (mkCameraStatus true "Camera started successfully" 3)
     = String.eqb (lower "start") "start".
Proof.
  split; [reflexivity|].
  exact (proj1 (camera_control_status_reflects_action
                  (world_of stopped_engine [])
                  (snd (camera_control "start" (world_of stopped_engine [])))
                  "start"
                  (mkCameraStatus true "Camera started successfully" 3)
                  eq_refl)).
Defined.

Lemma camera_control_raises_only_http_errors_witness :
  camera_control "start" (world_of unplugged_engine [])
  = (Raise (HTTPException 500 "Failed to start camera"),
     snd (camera_control "start" (world_of unplugged_engine [])))
  /\ In (HTTPException 500 "Failed to start camera") camera_control_errors.
Proof.
  split; [reflexivity|].
  exact (proj1 (camera_control_raises_only_http_errors
                  (world_of unplugged_engine [])
                  (snd (camera_control "start" (world_of unplugged_engine [])))
                  "start" (HTTPException 500 "Failed to start camera")
                  eq_refl)).
Defined.

Lemma disconnect_removes_one_occurrence_witness :
  ~ In 5%nat (active_connections (world_of stopped_engine [1; 2]%nat))
  /\ disconnect 5%nat (world_of stopped_engine [1; 2]%nat)
     = (Ok tt, world_of stopped_engine [1; 2]%nat).
Proof.
  assert (Hn : ~ In 5%nat (active_connections (world_of stopped_engine [1; 2]%nat)))
    by (cbn; intros [F|[F|[]]]; discriminate F).
  split; [exact Hn|].
  exact (proj2 (proj2 (proj2 (proj2 (proj2
           (disconnect_removes_one_occurrence 5%nat
              (world_of stopped_engine [1; 2]%nat)))))) Hn).
Defined.

Lemma disconnect_idempotent_witness :
  NoDup (active_connections (world_of stopped_engine [1; 2; 3]%nat))
  /\ bind (disconnect 2%nat) (fun _ => disconnect 2%nat)
          (world_of stopped_engine [1; 2; 3]%nat)
     = disconnect 2%nat (world_of stopped_engine [1; 2; 3]%nat).
Proof.
  assert (Hnd : NoDup (active_connections (world_of stopped_engine [1; 2; 3]%nat))).
  { cbn. repeat constructor; cbn; intuition discriminate. }
  split; [exact Hnd|].
  exact (disconnect_idempotent 2%nat (world_of stopped_engine [1; 2; 3]%nat) Hnd).
Defined.

Lemma connect_then_disconnect_witness :
  accept_all 3%nat = Ok tt
  /\ ~ In 3%nat (active_connections (world_of stopped_engine [1; 2]%nat))
  /\ bind (connect accept_all 3%nat) (fun _ => disconnect 3%nat)
          (world_of stopped_engine [1; 2]%nat)
     = (Ok tt, with_trace (world_of stopped_engine [1; 2]%nat) [WsAccept 3%nat]).
Proof.
  assert (Hn : ~ In 3%nat (active_connections (world_of stopped_engine [1; 2]%nat)))
    by (cbn; intros [F|[F|[]]]; discriminate F).
  split; [reflexivity|]. split; [exact Hn|].
  exact (connect_then_disconnect accept_all 3%nat
           (world_of stopped_engine [1; 2]%nat) eq_refl Hn).
Defined.

Lemma connections_stay_distinct_witness :
  NoDup (active_connections (world_of stopped_engine [1; 2]%nat))
  /\ ~ In 3%nat (active_connections (world_of stopped_engine [1; 2]%nat))
  /\ NoDup (active_connections
              (snd (connect accept_all 3%nat (world_of stopped_engine [1; 2]%nat)))).
Proof.
  assert (Hnd : NoDup (active_connections (world_of stopped_engine [1; 2]%nat))).
  { cbn. repeat constructor; cbn; intuition discriminate. }
  assert (Hn : ~ In 3%nat (active_connections (world_of stopped_engine [1; 2]%nat)))
    by (cbn; intros [F|[F|[]]]; discriminate F).
  split; [exact Hnd|]. split; [exact Hn|].
  exact (proj2 (proj2 (connections_stay_distinct accept_all (send_except 2%nat)
                         3%nat "hi" (world_of stopped_engine [1; 2]%nat) Hnd))
           Hn).
Defined.

Lemma disconnect_after_broadcast_drop_witness :
  send_except 2%nat 2%nat "hi" = Raise WebSocketDisconnect
  /\ ~ In 2%nat (active_connections
                   (snd (broadcast (send_except 2%nat) "hi"
                                   (world_of stopped_engine [1; 2; 3]%nat)))).
Proof.
  split; [reflexivity|].
  exact (proj1 (disconnect_after_broadcast_drop (send_except 2%nat) 2%nat "hi"
                  WebSocketDisconnect (world_of stopped_engine [1; 2; 3]%nat)
                  eq_refl)).
Defined.

Lemma websocket_endpoint_handshake_refused_witness :
  refuse_all 1%nat = Raise (RuntimeError "handshake refused")
  /\ websocket_endpoint refuse_all send_all noon 1%nat [Ok "ping"]
                        (world_of stopped_engine [])
     = (Raise (RuntimeError "handshake refused"),
        with_trace (world_of stopped_engine []) [WsAccept 1%nat]).
Proof.
  split; [reflexivity|].
  exact (websocket_endpoint_handshake_refused refuse_all send_all noon 1%nat
           [Ok "ping"] (RuntimeError "handshake refused")
           (world_of stopped_engine []) eq_refl).
Defined.

Lemma websocket_endpoint_lifecycle_witness :
  accept_all 3%nat = Ok tt
  /\ ~ In 3%nat (active_connections (world_of stopped_engine [1; 2]%nat))
  /\ tracker (snd (websocket_endpoint accept_all send_all noon 3%nat
                                      [Ok "ping"; Raise WebSocketDisconnect]
                                      (world_of stopped_engine [1; 2]%nat)))
     = Some stopped_engine.
Proof.
  assert (Hn : ~ In 3%nat (active_connections (world_of stopped_engine [1; 2]%nat)))
    by (cbn; intros [F|[F|[]]]; discriminate F).
  split; [reflexivity|]. split; [exact Hn|].
  exact (proj1 (websocket_endpoint_lifecycle accept_all send_all noon 3%nat
                  [Ok "ping"; Raise WebSocketDisconnect]
                  (world_of stopped_engine [1; 2]%nat) eq_refl Hn)).
Defined.

Lemma websocket_endpoint_returns_on_failure_witness :
  accept_all 3%nat = Ok tt
  /\ Exists (fun r => is_Raise r = true) [Ok "ping"; Raise WebSocketDisconnect]
  /\ fst (websocket_endpoint accept_all send_all noon 3%nat
                             [Ok "ping"; Raise WebSocketDisconnect]
                             (world_of stopped_engine [1; 2]%nat))
     = Ok Returned.
Proof.
  assert (Hex : Exists (fun r : Result string => is_Raise r = true)
                       [Ok "ping"; Raise WebSocketDisconnect])
    by (apply Exists_cons_tl, Exists_cons_hd; reflexivity).
  split; [reflexivity|]. split; [exact Hex|].
  exact (websocket_endpoint_returns_on_failure accept_all send_all noon 3%nat
           [Ok "ping"; Raise WebSocketDisconnect]
           (world_of stopped_engine [1; 2]%nat) eq_refl Hex).
Defined.

Lemma websocket_pings_answered_witness :
  accept_all 3%nat = Ok tt
  /\ (forall text, send_all 3%nat text = Ok tt)
  /\ fst (websocket_endpoint accept_all send_all noon 3%nat
                             (map Ok ["ping"; "hello"; "ping"])
                             (world_of stopped_engine []))
     = Ok Awaiting.
Proof.
  split; [reflexivity|]. split; [intros text; reflexivity|].
  exact (proj1 (websocket_pings_answered accept_all send_all noon 3%nat
                  ["ping"; "hello"; "ping"] (world_of stopped_engine [])
                  eq_refl (fun _ => eq_refl))).
Defined.

Lemma websocket_no_status_without_tracker_witness :
  tracker world_without_tracker = None
  /\ accept_all 3%nat = Ok tt
  /\ exists rest,
      appended world_without_tracker
               (snd (websocket_endpoint accept_all send_all noon 3%nat
                                        [Ok "ping"] world_without_tracker))
               ([WsAccept 3%nat] ++ rest)
      /\ Forall (loop_event 3%nat) rest.
Proof.
  split; [reflexivity|]. split; [reflexivity|].
  exact (websocket_no_status_without_tracker accept_all send_all noon 3%nat
           [Ok "ping"] world_without_tracker eq_refl eq_refl).
Defined.

Lemma generate_frames_serves_latest_frame_witness :
  tracker (world_of streaming_engine []) = Some streaming_engine
  /\ is_camera_running streaming_engine = true
  /\ get_latest_frame streaming_engine = Some (Captured 7)
  /\ jpeg_stub ".jpg" (Captured 7) = Ok (true, "JFIF")
  /\ generate_frames_iteration jpeg_stub (world_of streaming_engine [])
     = (Ok tt, with_trace (world_of streaming_engine [])
                          [TrackerCall m_is_camera_running;
                           TrackerCall m_get_latest_frame;
                           Yield (multipart "JFIF")]).
Proof.
  repeat (split; [reflexivity|]).
  exact (generate_frames_serves_latest_frame jpeg_stub
           (world_of streaming_engine []) streaming_engine (Captured 7) "JFIF"
           eq_refl eq_refl eq_refl eq_refl).
Defined.

Lemma generate_frames_skips_unencodable_witness :
  tracker (world_of streaming_engine []) = Some streaming_engine
  /\ jpeg_broken ".jpg" (served_image streaming_engine) = Ok (false, EmptyString)
  /\ generate_frames_iteration jpeg_broken (world_of streaming_engine [])
     = (Ok tt, with_trace (world_of streaming_engine [])
                          (frame_reads streaming_engine)).
Proof.
  repeat (split; [reflexivity|]).
  exact (proj1 (generate_frames_skips_unencodable jpeg_broken
                  (world_of streaming_engine []) streaming_engine EmptyString
                  eq_refl eq_refl)).
Defined.

Lemma generate_frames_without_tracker_ends_witness :
  tracker world_without_tracker = None
  /\ generate_frames jpeg_stub 5 world_without_tracker
     = (Ok Exhausted,
        with_trace world_without_tracker (yielded jpeg_stub stream_error_frame)).
Proof.
  split; [reflexivity|].
  exact (generate_frames_without_tracker_ends jpeg_stub world_without_tracker
           4 eq_refl).
Defined.


Lemma health_check_with_tracker_witness :
  tracker (world_of running_engine [1]%nat) = Some running_engine
  /\ fst (health_check noon (world_of running_engine [1]%nat))
     = Ok [("status", JString "healthy");
           ("tracker_initialized", JBool true);
           ("camera_running", JBool true);
           ("timestamp", JString (noon 0))].
Proof.
  split; [reflexivity|].
  exact (f_equal fst (health_check_with_tracker noon
                        (world_of running_engine [1]%nat) running_engine
                        eq_refl)).
Defined.

Lemma lifespan_startup_outcome_witness :
  lifespan_startup (Ok tt) true (Ok stopped_engine) (fun t => Ok t)
                   (world_of running_engine [1; 2]%nat)
  = (Ok tt, world_of stopped_engine [])
  /\ lifespan_startup (Raise (RuntimeError "no database")) true
                      (Ok stopped_engine) (fun t => Ok t)
                      (world_of running_engine [1; 2]%nat)
     = (Raise (RuntimeError "no database"), world_of running_engine [1; 2]%nat).
Proof.
  split.
  - exact (proj1 (lifespan_startup_outcome (Ok tt) true (Ok stopped_engine)
                    (fun t => Ok t) (world_of running_engine [1; 2]%nat))
             eq_refl).
  - exact (proj2 (lifespan_startup_outcome
                    (Raise (RuntimeError "no database")) true
                    (Ok stopped_engine) (fun t => Ok t)
                    (world_of running_engine [1; 2]%nat))
             (RuntimeError "no database") eq_refl).
Defined.

Lemma camera_control_after_failed_startup_witness :
  started_tracker false (Ok stopped_engine) (fun t => Ok t) = None
  /\ bind (lifespan_startup (Ok tt) false (Ok stopped_engine) (fun t => Ok t))
          (fun _ => camera_control "start") (world_of running_engine [1]%nat)
     = (Raise (HTTPException 503 "Tracker not initialized"),
        mkWorld None [] [] 0).
Proof.
  split; [reflexivity|].
  exact (camera_control_after_failed_startup false (Ok stopped_engine)
           (fun t => Ok t) "start" (world_of running_engine [1]%nat) eq_refl).
Defined.
